(** * music2json: a shallow embedding of [music2json.ts]

    The program walks a music library laid out as artist / album / track
    files, probes every supported audio file for its metadata and writes
    the aggregated artists (and the processing errors) as JSON.

    The embedding follows the source function by function:
    [processAlbum], [scanDirectory] and [main].  What the program imports
    (node:path, node:fs promises, music-metadata's [parseFile]) is taken as
    a parameter; asynchronous code is written in a small monad that threads
    the console and the written files and carries exceptions and
    [process.exit].  The probes of a batch run concurrently: the order in
    which they complete is a parameter too, a latency per file.

    Left out: [getVersion], the parsing of the command line by yargs, the
    JSON text of the written files, and the process-wide
    [uncaughtException] handler of lines 38-58. *)

From Stdlib Require Import String Ascii ZArith Arith Bool Lia List Permutation.
From Stdlib Require Import DecimalString Sorted.
Import ListNotations.
Local Open Scope string_scope.
Local Open Scope list_scope.

(** ** Data model (lines 15-36 of the source) *)

Definition SUPPORTED_FILE_TYPES : list string :=
  [".m4a"; ".aac"; ".mp4"; ".mp3"; ".flac"; ".ogg"].

Record Track := { title : string }.

Record Album := {
  albumTitle : string;
  genres : list string;
  tracks : list Track
}.

Record Artist := {
  artistName : string;
  albums : list Album
}.

Record ProcessingError := {
  file : string;
  error : string
}.

(** ** What the program imports *)

(** A promise of the imported libraries, once settled.  A rejection is
    represented by the message the source extracts from it
    ([error instanceof Error ? error.message : String(error)]). *)
Inductive Settled (A : Type) : Type :=
| Fulfilled (a : A)
| Rejected (msg : string).
Arguments Fulfilled {A} a.
Arguments Rejected {A} msg.

(** [fs.Dirent], as returned by [readdir] with [withFileTypes: true]. *)
Inductive EntryKind := KFile | KDirectory | KOther.

Record Dirent := { name : string; kind : EntryKind }.

Definition isFile (d : Dirent) : bool :=
  match kind d with KFile => true | _ => false end.

Definition isDirectory (d : Dirent) : bool :=
  match kind d with KDirectory => true | _ => false end.

(** The [common] part of music-metadata's result, restricted to the two
    fields the program reads; both are optional in the library's type. *)
Record Common := {
  common_title : option string;
  common_genre : option (list string)
}.

(** What is written to a file, named by what the text is computed from.
    [ArtistsJson artists] stands for the text of lines 250-256:
    [JSON.stringify(artists, null, 2)] after the replacement that puts
    every genre array on one line, which also collapses runs of white
    space inside the genre strings.  [ErrorsJson errors] stands for
    [JSON.stringify(errors, null, 2)].  The texts themselves are not
    modelled: nothing here says what a written file reads back as. *)
Inductive Content :=
| ArtistsJson (artists : list Artist)
| ErrorsJson (errors : list ProcessingError).

(** The [fs] promises API, as far as the program calls it. *)
Record FsPromises := {
  readdir : string -> Settled (list Dirent);
  access : string -> Settled unit;
  stat : string -> Settled EntryKind;
  mkdir : string -> Settled unit;
  writeFile : string -> Content -> Settled unit
}.

(** ** The effect monad *)

Inductive Stream := Stdout | Stderr.

Record World := {
  console : list (Stream * string);
  files : list (string * Content)
}.

Definition emptyWorld : World := {| console := []; files := [] |}.

Inductive Outcome (A : Type) : Type :=
| Returns (a : A)
| Throws (msg : string)
| Exits (code : Z).
Arguments Returns {A} a.
Arguments Throws {A} msg.
Arguments Exits {A} code.

Definition M (A : Type) : Type := World -> World * Outcome A.

Definition ret {A} (a : A) : M A := fun w => (w, Returns a).

Definition bind {A B} (m : M A) (k : A -> M B) : M B :=
  fun w =>
    match m w with
    | (w', Returns a) => k a w'
    | (w', Throws msg) => (w', Throws msg)
    | (w', Exits code) => (w', Exits code)
    end.

Declare Scope js_scope.
Delimit Scope js_scope with js.
Notation "x <- c1 ;; c2" := (bind c1 (fun x => c2))
  (at level 61, c1 at next level, right associativity) : js_scope.
Notation "' pat <- c1 ;; c2" := (bind c1 (fun x => match x with pat => c2 end))
  (at level 61, pat pattern, c1 at next level, right associativity) : js_scope.
Notation "c1 ;; c2" := (bind c1 (fun _ => c2))
  (at level 61, right associativity) : js_scope.
Local Open Scope js_scope.

(** [await p] for a promise of an imported library. *)
Definition await {A} (p : Settled A) : M A :=
  fun w =>
    match p with
    | Fulfilled a => (w, Returns a)
    | Rejected msg => (w, Throws msg)
    end.

(** [try { body } catch (err) { handler }]: only a thrown exception
    reaches the handler; [process.exit] ends the process where it is. *)
Definition try_catch {A} (body : M A) (handler : string -> M A) : M A :=
  fun w =>
    match body w with
    | (w', Throws msg) => handler msg w'
    | r => r
    end.

Definition process_exit {A} (code : Z) : M A := fun w => (w, Exits code).

Definition console_log (line : string) : M unit :=
  fun w => ({| console := console w ++ [(Stdout, line)]; files := files w |},
            Returns tt).

Definition console_error (line : string) : M unit :=
  fun w => ({| console := console w ++ [(Stderr, line)]; files := files w |},
            Returns tt).

(** [if (c) { body }] *)
Definition when (c : bool) (body : M unit) : M unit :=
  if c then body else ret tt.

(** [Array.prototype.forEach] with an effectful callback. *)
Fixpoint forEach {A} (l : list A) (f : A -> M unit) : M unit :=
  match l with
  | [] => ret tt
  | x :: l' => f x ;; forEach l' f
  end.

(** ** JavaScript built-ins *)

(** [Array.prototype.slice(s, e)] for [0 <= s] and [0 <= e]. *)
Definition slice {A} (s e : nat) (l : list A) : list A :=
  firstn (e - s) (skipn s l).

(** [Array.prototype.includes] on strings. *)
Definition includes (l : list string) (s : string) : bool :=
  if in_dec string_dec s l then true else false.

(** A [Set<string>] is kept in insertion order without duplicates;
    [Set_add g s] is [s.add(g)] and [Array.from] is the list itself. *)
Definition Set_add (s : list string) (g : string) : list string :=
  if in_dec string_dec g s then s else s ++ [g].

(** [a || b] on an optional string: [undefined] and the empty string are
    falsy. *)
Definition or_else (a : option string) (b : string) : string :=
  match a with
  | Some s => if string_dec s "" then b else s
  | None => b
  end.

(** Template-literal rendering of an array length. *)
Definition showNat (n : nat) : string :=
  NilZero.string_of_uint (Nat.to_uint n).

(** ** The program *)

Section Program.

(** node:path *)
Variable join : string -> string -> string.
Variable extname : string -> string.
Variable dirname : string -> string.
(** [String.prototype.toLowerCase] *)
Variable toLowerCase : string -> string.
(** node:fs promises *)
Variable fs : FsPromises.
(** music-metadata: what probing the file at a path settles to. *)
Variable parseFile : string -> Settled Common.
(** How long the probe of the file at a path takes.  The probes of one
    batch run concurrently and their continuations run in the order in
    which the probes complete; ties keep submission order. *)
Variable latency : string -> nat.

(** *** processAlbum (lines 71-128) *)

(** The filter of lines 78-80. *)
Definition isMusicFile (file : Dirent) : bool :=
  isFile file && includes SUPPORTED_FILE_TYPES (toLowerCase (extname (name file))).

(** The two objects the concurrent callbacks of a batch write to:
    [allGenres] and [errors]. *)
Record Shared := {
  allGenres : list string;
  errors_ : list ProcessingError
}.

(** The effect of one callback of [batch.map] when its probe settles
    (lines 98-100 on success, 106-107 on failure). *)
Definition settle (albumPath : string) (sh : Shared) (trackFile : Dirent) : Shared :=
  let filePath := join albumPath (name trackFile) in
  match parseFile filePath with
  | Fulfilled common =>
      {| allGenres :=
           match common_genre common with
           | Some genre => fold_left Set_add genre (allGenres sh)
           | None => allGenres sh
           end;
         errors_ := errors_ sh |}
  | Rejected errorMessage =>
      {| allGenres := allGenres sh;
         errors_ := errors_ sh ++ [{| file := filePath; error := errorMessage |}] |}
  end.

(** The value the promise of one callback resolves to (lines 102-104 on
    success, 108 on failure). *)
Definition trackOf (albumPath : string) (trackFile : Dirent) : option Track :=
  let filePath := join albumPath (name trackFile) in
  match parseFile filePath with
  | Fulfilled common => Some {| title := or_else (common_title common) (name trackFile) |}
  | Rejected _ => None
  end.

(** The order in which the probes of a batch complete: a stable sort of
    the batch by latency. *)
Fixpoint insertByLatency (albumPath : string) (f : Dirent) (l : list Dirent)
  : list Dirent :=
  match l with
  | [] => [f]
  | g :: l' =>
      if (latency (join albumPath (name f)) <=? latency (join albumPath (name g)))%nat
      then f :: g :: l'
      else g :: insertByLatency albumPath f l'
  end.

Fixpoint completionOrder (albumPath : string) (batch : list Dirent) : list Dirent :=
  match batch with
  | [] => []
  | f :: batch' => insertByLatency albumPath f (completionOrder albumPath batch')
  end.

(** [.filter((track): track is Track => track !== null)] *)
Fixpoint nonNull {A} (l : list (option A)) : list A :=
  match l with
  | [] => []
  | Some a :: l' => a :: nonNull l'
  | None :: l' => nonNull l'
  end.

(** One batch (lines 88-114): the callbacks take effect in completion
    order; [Promise.all] yields their values in submission order. *)
Definition processBatch (albumPath : string) (batch : list Dirent)
           (st : list Track * Shared) : list Track * Shared :=
  let sh := fold_left (settle albumPath) (completionOrder albumPath batch) (snd st) in
  let tracks := nonNull (map (trackOf albumPath) batch) in
  (fst st ++ tracks, sh).

Definition batchSize : nat := 10.

(** The loop of line 87; each turn advances [i] by [batchSize], so
    [length musicFiles] turns are enough. *)
Fixpoint batchLoop (fuel : nat) (albumPath : string) (musicFiles : list Dirent)
         (i : nat) (st : list Track * Shared) : list Track * Shared :=
  match fuel with
  | O => st
  | S fuel' =>
      if (i <? length musicFiles)%nat then
        let batch := slice i (Nat.min (i + batchSize) (length musicFiles)) musicFiles in
        batchLoop fuel' albumPath musicFiles (i + batchSize)
                  (processBatch albumPath batch st)
      else st
  end.

(** The only statement of the [try] block that can throw is the
    [readdir] of line 77 (every callback catches its own failure), and it
    runs before anything is pushed onto [errors]: in the handler of lines
    123-127 [errors] is still the empty array of line 72. *)
Definition processAlbum (albumPath albumName : string)
  : M (option Album * list ProcessingError) :=
  let errors : list ProcessingError := [] in
  try_catch
    (trackFiles <- await (readdir fs albumPath) ;;
     let musicFiles := filter isMusicFile trackFiles in
     if (length musicFiles =? 0)%nat then ret (None, errors)
     else
       let st := batchLoop (length musicFiles) albumPath musicFiles 0
                           ([], {| allGenres := []; errors_ := errors |}) in
       let album := {| albumTitle := albumName;
                       genres := allGenres (snd st);
                       tracks := fst st |} in
       ret (if (0 <? length (tracks album))%nat then Some album else None,
            errors_ (snd st)))
    (fun errorMessage =>
       ret (None, errors ++ [{| file := albumPath; error := errorMessage |}])).

(** *** scanDirectory (lines 130-167) *)

(** The loop of lines 150-158 over the entries of one artist directory. *)
Fixpoint albumLoop (artistPath : string) (albumDirs : list Dirent)
         (acc : list Album * list ProcessingError)
  : M (list Album * list ProcessingError) :=
  match albumDirs with
  | [] => ret acc
  | albumDir :: rest =>
      if isDirectory albumDir then
        result <- processAlbum (join artistPath (name albumDir)) (name albumDir) ;;
        albumLoop artistPath rest
                  (match fst result with
                   | Some album => fst acc ++ [album]
                   | None => fst acc
                   end,
                   snd acc ++ snd result)
      else albumLoop artistPath rest acc
  end.

(** The loop of lines 140-164 over the root entries to process.  The
    [readdir] of line 147 is not inside any [try]. *)
Fixpoint artistLoop (directory : string) (dirsToProcess : list Dirent)
         (acc : list Artist * list ProcessingError)
  : M (list Artist * list ProcessingError) :=
  match dirsToProcess with
  | [] => ret acc
  | artistDir :: rest =>
      if isDirectory artistDir then
        let artistPath := join directory (name artistDir) in
        console_log ("Processing artist: " ++ name artistDir) ;;
        albumDirs <- await (readdir fs artistPath) ;;
        r <- albumLoop artistPath albumDirs ([], snd acc) ;;
        let artist := {| artistName := name artistDir; albums := fst r |} in
        artistLoop directory rest
                   (if (0 <? length (albums artist))%nat then fst acc ++ [artist] else fst acc,
                    snd r)
      else artistLoop directory rest acc
  end.

(** Line 137.  [limit] is the number given on the command line, taken
    here as an integer. *)
Definition dirsToProcess (artistDirs : list Dirent) (limit : Z) : list Dirent :=
  if (0 <? limit)%Z then slice 0 (Z.to_nat limit) artistDirs else artistDirs.

Definition scanDirectory (directory : string) (limit : Z)
  : M (list Artist * list ProcessingError) :=
  console_log ("Scanning directory: " ++ directory) ;;
  artistDirs <- await (readdir fs directory) ;;
  artistLoop directory (dirsToProcess artistDirs limit) ([], []).

(** *** main (lines 169-284) *)

(** The command-line arguments after yargs: [--music-dir] (absent when
    neither the flag nor MUSIC_PATH is given), [--output], [--limit]. *)
Record Argv := {
  music_dir : option string;
  output : string;
  limit_ : Z
}.

(** Lines 218-236. *)
Definition resolveOutputFile (outputPath : string) : M string :=
  try_catch
    (stats <- await (stat fs outputPath) ;;
     match stats with
     | KDirectory => ret (join outputPath "music_metadata.json")
     | _ => ret outputPath
     end)
    (fun _ =>
       if string_dec (extname outputPath) "" then
         ret (join outputPath "music_metadata.json")
       else ret outputPath).

(** [fs.writeFile]: a fulfilled write is recorded in the world. *)
Definition fs_writeFile (path : string) (c : Content) : M unit :=
  fun w =>
    match writeFile fs path c with
    | Fulfilled _ =>
        ({| console := console w; files := files w ++ [(path, c)] |}, Returns tt)
    | Rejected msg => (w, Throws msg)
    end.

(** The body of [main], with the scan called at line 245 as a parameter,
    so that a property of [main] can be stated for a scan interrupted by
    an exception of any origin.  [main] itself calls [scanDirectory]. *)
Definition mainWith (scan : string -> Z -> M (list Artist * list ProcessingError))
           (argv : Argv) : M unit :=
  let outputPath := output argv in
  let limit := limit_ argv in
  match music_dir argv with
  | None =>
      console_error "Error: Music directory not specified. Please provide it via .env file or --music-dir argument" ;;
      process_exit 1
  | Some musicDirectory =>
    if string_dec musicDirectory "" then
      console_error "Error: Music directory not specified. Please provide it via .env file or --music-dir argument" ;;
      process_exit 1
    else
    try_catch
      (try_catch
         (await (access fs musicDirectory))
         (fun _ =>
            console_error ("Error: Music directory " ++ String "034" (musicDirectory ++ String "034" " does not exist or is not accessible")) ;;
            process_exit 1) ;;
       outputFile <- resolveOutputFile outputPath ;;
       console_log ("Starting scan of music directory: " ++ musicDirectory) ;;
       console_log ("Will save results to: " ++ outputFile) ;;
       let outputDir := dirname outputFile in
       await (mkdir fs outputDir) ;;
       r <- scan musicDirectory limit ;;
       let artists := fst r in
       let errors := snd r in
       when (0 <? length artists)%nat
         (console_log (String "010" ("Writing " ++ showNat (length artists) ++ " artists to file...")) ;;
          fs_writeFile outputFile (ArtistsJson artists) ;;
          console_log ("Music library JSON saved to " ++ outputFile)) ;;
       when (0 <? length errors)%nat
         (console_log (String "010" ("Encountered " ++ showNat (length errors) ++ " errors during processing:")) ;;
          let errorFile := join (dirname outputFile) "music_metadata_errors.json" in
          fs_writeFile errorFile (ErrorsJson errors) ;;
          console_log ("Processing errors saved to " ++ errorFile) ;;
          console_log (String "010" "Sample of errors encountered:") ;;
          forEach (slice 0 5 errors)
                  (fun e => console_log ("  - " ++ file e ++ ": " ++ error e)) ;;
          when (5 <? length errors)%nat
            (console_log ("  ... and " ++ showNat (length errors - 5) ++ " more errors (see " ++ errorFile ++ " for full list)"))) ;;
       process_exit 0)
      (fun err =>
         console_error ("Fatal error: " ++ err) ;;
         process_exit 1)
  end.

Definition main : Argv -> M unit := mainWith scanDirectory.

End Program.

(** ** The order the output is expected in

    The artists, albums and tracks written in terms of the directory
    listings alone: no completion order of the probes enters these
    definitions. *)

Section ListingOrder.

Variable join : string -> string -> string.
Variable extname : string -> string.
Variable toLowerCase : string -> string.
Variable fs : FsPromises.
Variable parseFile : string -> Settled Common.

(** An album or an artist without its genres. *)
Definition albumOutline (a : Album) : string * list Track :=
  (albumTitle a, tracks a).

Definition artistOutline (a : Artist) : string * list (string * list Track) :=
  (artistName a, map albumOutline (albums a)).

(** The tracks of an album directory: one per supported file whose probe
    is fulfilled, in the order of the filtered listing. *)
Definition tracksInListingOrder (albumPath : string) : list Track :=
  match readdir fs albumPath with
  | Fulfilled trackFiles =>
      nonNull (map (trackOf join parseFile albumPath)
                   (filter (isMusicFile extname toLowerCase) trackFiles))
  | Rejected _ => []
  end.

(** The albums of an artist directory: one per sub-directory with at
    least one track, in listing order. *)
Definition albumsInListingOrder (artistPath : string)
  : list (string * list Track) :=
  match readdir fs artistPath with
  | Fulfilled albumDirs =>
      flat_map (fun albumDir =>
                  match tracksInListingOrder (join artistPath (name albumDir)) with
                  | [] => []
                  | ts => [(name albumDir, ts)]
                  end)
               (filter isDirectory albumDirs)
  | Rejected _ => []
  end.

(** The artists: one per directory among the entries to process with at
    least one album, in listing order. *)
Definition artistsInListingOrder (directory : string) (toProcess : list Dirent)
  : list (string * list (string * list Track)) :=
  flat_map (fun artistDir =>
              match albumsInListingOrder (join directory (name artistDir)) with
              | [] => []
              | als => [(name artistDir, als)]
              end)
           (filter isDirectory toProcess).

(** The errors and the genres of a list of files, in the order of the
    list. *)
Definition errorsOf (albumPath : string) (l : list Dirent) : list ProcessingError :=
  flat_map (fun trackFile =>
              let filePath := join albumPath (name trackFile) in
              match parseFile filePath with
              | Fulfilled _ => []
              | Rejected errorMessage =>
                  [{| file := filePath; error := errorMessage |}]
              end) l.

Definition genresOf (albumPath : string) (l : list Dirent) : list string :=
  flat_map (fun trackFile =>
              match parseFile (join albumPath (name trackFile)) with
              | Fulfilled common =>
                  match common_genre common with
                  | Some genre => genre
                  | None => []
                  end
              | Rejected _ => []
              end) l.

(** Whether the probe of a file of the album fails. *)
Definition probeFails (albumPath : string) (trackFile : Dirent) : bool :=
  match parseFile (join albumPath (name trackFile)) with
  | Fulfilled _ => false
  | Rejected _ => true
  end.

End ListingOrder.

(** The batches the loop of line 87 forms, as a list. *)
Fixpoint batchesFrom (fuel : nat) (musicFiles : list Dirent) (i : nat)
  : list (list Dirent) :=
  match fuel with
  | O => []
  | S fuel' =>
      if (i <? length musicFiles)%nat then
        slice i (Nat.min (i + batchSize) (length musicFiles)) musicFiles
          :: batchesFrom fuel' musicFiles (i + batchSize)
      else []
  end.

(** ** The results of the loops as plain values *)

Section Results.

Variable join : string -> string -> string.
Variable extname : string -> string.
Variable toLowerCase : string -> string.
Variable fs : FsPromises.
Variable parseFile : string -> Settled Common.
Variable latency : string -> nat.

(** The value [processAlbum] returns, as a function of the listing and
    the probes. *)
Definition albumResult (albumPath albumName : string)
  : option Album * list ProcessingError :=
  match readdir fs albumPath with
  | Rejected errorMessage => (None, [{| file := albumPath; error := errorMessage |}])
  | Fulfilled trackFiles =>
      let musicFiles := filter (isMusicFile extname toLowerCase) trackFiles in
      if (length musicFiles =? 0)%nat then (None, [])
      else
        let st := batchLoop join parseFile latency (length musicFiles) albumPath musicFiles 0
                            ([], {| allGenres := []; errors_ := [] |}) in
        (if (0 <? length (fst st))%nat
         then Some {| albumTitle := albumName;
                      genres := allGenres (snd st);
                      tracks := fst st |}
         else None,
         errors_ (snd st))
  end.

(** What the loop over the entries of an artist directory adds to the
    albums and to the errors. *)
Definition albumsOf (artistPath : string) (albumDirs : list Dirent) : list Album :=
  flat_map (fun albumDir =>
              match fst (albumResult (join artistPath (name albumDir)) (name albumDir)) with
              | Some album => [album]
              | None => []
              end)
           (filter isDirectory albumDirs).

Definition albumErrorsOf (artistPath : string) (albumDirs : list Dirent)
  : list ProcessingError :=
  flat_map (fun albumDir =>
              snd (albumResult (join artistPath (name albumDir)) (name albumDir)))
           (filter isDirectory albumDirs).

(** What the loop over the root entries adds to the artists, when it
    returns. *)
Definition artistsOf (directory : string) (toProcess : list Dirent) : list Artist :=
  flat_map (fun artistDir =>
              match readdir fs (join directory (name artistDir)) with
              | Fulfilled albumDirs =>
                  match albumsOf (join directory (name artistDir)) albumDirs with
                  | [] => []
                  | als => [{| artistName := name artistDir; albums := als |}]
                  end
              | Rejected _ => []
              end)
           (filter isDirectory toProcess).

(** The console lines of the loop over the root entries. *)
Definition processingLines (toProcess : list Dirent) : list (Stream * string) :=
  map (fun artistDir => (Stdout, ("Processing artist: " ++ name artistDir)%string))
      (filter isDirectory toProcess).

End Results.

(** ** The failures of a scan, read off the listings and the probes *)

Section Failures.

Variable join : string -> string -> string.
Variable extname : string -> string.
Variable toLowerCase : string -> string.
Variable fs : FsPromises.
Variable parseFile : string -> Settled Common.

(** The failures of an album directory: its listing, or else the probes
    of its supported files, in listing order. *)
Definition albumFailures (albumPath : string) : list ProcessingError :=
  match readdir fs albumPath with
  | Rejected errorMessage => [{| file := albumPath; error := errorMessage |}]
  | Fulfilled trackFiles =>
      errorsOf join parseFile albumPath
               (filter (isMusicFile extname toLowerCase) trackFiles)
  end.

(** The failures below an artist directory that can be listed. *)
Definition artistFailures (artistPath : string) : list ProcessingError :=
  match readdir fs artistPath with
  | Fulfilled albumDirs =>
      flat_map (fun albumDir => albumFailures (join artistPath (name albumDir)))
               (filter isDirectory albumDirs)
  | Rejected _ => []
  end.

Definition scanFailures (directory : string) (toProcess : list Dirent)
  : list ProcessingError :=
  flat_map (fun artistDir => artistFailures (join directory (name artistDir)))
           (filter isDirectory toProcess).

(** Every directory to process can be listed. *)
Definition allListed (directory : string) (toProcess : list Dirent) : Prop :=
  Forall (fun artistDir =>
            exists albumDirs,
              readdir fs (join directory (name artistDir)) = Fulfilled albumDirs)
         (filter isDirectory toProcess).

End Failures.

(** What the loop over the root entries adds to the errors, when it
    returns. *)
Definition scanErrorsOf (join : string -> string -> string)
           (extname toLowerCase : string -> string) (fs : FsPromises)
           (parseFile : string -> Settled Common) (latency : string -> nat)
           (directory : string) (toProcess : list Dirent) : list ProcessingError :=
  flat_map (fun artistDir =>
              match readdir fs (join directory (name artistDir)) with
              | Fulfilled albumDirs =>
                  albumErrorsOf join extname toLowerCase fs parseFile latency
                                (join directory (name artistDir)) albumDirs
              | Rejected _ => []
              end)
           (filter isDirectory toProcess).

(** ** The process-wide handler and getVersion *)

(** The value of a property of a thrown object, as far as the handler
    looks at it: a string, or anything else. *)
Inductive JsProp :=
| JsString (s : string)
| JsNonString.

(** A value that reaches the [uncaughtException] handler. [isObject] is
    [err && typeof err === 'object']; a property is [None] when it is not
    [in] the value; [text] is what
    [err instanceof Error ? err.message : String(err)] evaluates to. *)
Record Thrown := {
  isObject : bool;
  code : option JsProp;
  syscall : option JsProp;
  stack : option JsProp;
  text : string
}.

(** [p === s] for a property that is present. *)
Definition strictEq (p : option JsProp) (s : string) : bool :=
  match p with
  | Some (JsString s') => if string_dec s' s then true else false
  | _ => false
  end.

Definition isIn (p : option JsProp) : bool :=
  match p with Some _ => true | None => false end.

(** A parsed JSON value, as far as [getVersion] can tell values apart:
    reading a property of [null] throws, reading one of any other value
    that is not an object gives [undefined]. *)
#[warnings="-register-all"]
Inductive Json :=
| JNull
| JText (s : string)
| JObject (fields : list (string * Json))
| JOther.

Fixpoint getField (fields : list (string * Json)) (key : string) : option Json :=
  match fields with
  | [] => None
  | (k, v) :: fields' => if string_dec k key then Some v else getField fields' key
  end.

Definition throw {A} (msg : string) : M A := fun w => (w, Throws msg).

Section Process.

(** [stack.match(/Processing track ([^:]+):/)]: the first group of the
    match, if there is a match. *)
Variable matchProcessingTrack : string -> option string.
Variable join : string -> string -> string.
(** [readFile(path, 'utf-8')] and [JSON.parse]. *)
Variable readFile : string -> Settled string.
Variable JSON_parse : string -> Settled Json.
Variable __dirname : string.

(** Lines 38-58. *)
Definition uncaughtException (err : Thrown) : M unit :=
  let fatal : M unit :=
    console_error ("Fatal error: " ++ text err) ;;
    process_exit 1 in
  if isObject err && isIn (code err) && isIn (syscall err) then
    if strictEq (code err) "EBADF" && strictEq (syscall err) "close" then
      let filePath :=
        match stack err with
        | Some (JsString s) =>
            match matchProcessingTrack s with
            | Some path => path
            | None => "unknown file"
            end
        | _ => "unknown file"
        end in
      console_error ("Warning: File descriptor error occurred but processing will continue: " ++ filePath)
    else fatal
  else fatal.

(** Lines 60-69.  The result is [None] for [undefined]. *)
Definition getVersion : M (option Json) :=
  try_catch
    (contents <- await (readFile (join __dirname "package.json")) ;;
     packageJson <- await (JSON_parse contents) ;;
     match packageJson with
     | JNull => throw "TypeError: Cannot read properties of null (reading 'version')"
     | JObject fields => ret (getField fields "version")
     | _ => ret None
     end)
    (fun _ => ret (Some (JText "1.0.0"))).

End Process.

(** ** A concrete platform and library for closed examples

    POSIX paths without [.], [..] or repeated separators, and ASCII file
    names: on these the functions below agree with node:path and with
    [toLowerCase]. *)

Module Posix.

Definition join (a b : string) : string := a ++ "/" ++ b.

(** The part after the last separator, and the part before it. *)
Fixpoint splitLast (s : string) : option (string * string) :=
  match s with
  | EmptyString => None
  | String c s' =>
      match splitLast s' with
      | Some (d, b) => Some (String c d, b)
      | None => if Ascii.eqb c "/" then Some ("", s') else None
      end
  end.

Definition basename (s : string) : string :=
  match splitLast s with Some (_, b) => b | None => s end.

Definition dirname (s : string) : string :=
  match splitLast s with
  | Some ("", _) => "/"
  | Some (d, _) => d
  | None => "."
  end.

(** The suffix starting at the last dot, if there is a dot. *)
Fixpoint lastDot (s : string) : option string :=
  match s with
  | EmptyString => None
  | String c s' =>
      match lastDot s' with
      | Some e => Some e
      | None => if Ascii.eqb c "." then Some s else None
      end
  end.

(** A dot that starts the base name does not start an extension. *)
Definition extname (s : string) : string :=
  match basename s with
  | EmptyString => ""
  | String _ rest =>
      if string_dec (basename s) ".." then ""
      else match lastDot rest with Some e => e | None => "" end
  end.

Definition lowerAscii (c : ascii) : ascii :=
  let n := nat_of_ascii c in
  if ((65 <=? n) && (n <=? 90))%nat then ascii_of_nat (n + 32) else c.

Fixpoint toLowerCase (s : string) : string :=
  match s with
  | EmptyString => ""
  | String c s' => String (lowerAscii c) (toLowerCase s')
  end.

End Posix.

Module Library.

Fixpoint lookup {A} (table : list (string * A)) (key : string) : option A :=
  match table with
  | [] => None
  | (k, v) :: table' => if string_dec k key then Some v else lookup table' key
  end.

Definition dir (n : string) : Dirent := {| name := n; kind := KDirectory |}.
Definition reg (n : string) : Dirent := {| name := n; kind := KFile |}.

(** A file system given by the listings of its directories; every other
    path is reported missing.  Writes and [mkdir] succeed. *)
Definition fsOf (listings : list (string * Settled (list Dirent))) : FsPromises :=
  {| readdir := fun p =>
       match lookup listings p with
       | Some r => r
       | None => Rejected ("ENOENT: no such file or directory, scandir '" ++ p ++ "'")
       end;
     access := fun p =>
       match lookup listings p with
       | Some _ => Fulfilled tt
       | None => Rejected ("ENOENT: no such file or directory, access '" ++ p ++ "'")
       end;
     stat := fun p =>
       match lookup listings p with
       | Some _ => Fulfilled KDirectory
       | None => Rejected ("ENOENT: no such file or directory, stat '" ++ p ++ "'")
       end;
     mkdir := fun _ => Fulfilled tt;
     writeFile := fun _ _ => Fulfilled tt |}.

(** A probe given by a table; a file missing from it is corrupt. *)
Definition probeOf (table : list (string * Common)) (p : string) : Settled Common :=
  match lookup table p with
  | Some c => Fulfilled c
  | None => Rejected "Invalid FLAC preamble"
  end.

Definition tagged (t : string) (g : list string) : Common :=
  {| common_title := Some t; common_genre := Some g |}.

Definition noLatency (p : string) : nat := 0.

(** The library of the end-to-end scenario, with a stray file in the
    root and a third artist. *)
Definition listings1 : list (string * Settled (list Dirent)) :=
  [ ("/music", Fulfilled [reg ".DS_Store"; dir "ArtistA"; dir "ArtistB"; dir "ArtistC"]);
    ("/music/ArtistA", Fulfilled [dir "Album1"]);
    ("/music/ArtistA/Album1", Fulfilled [reg "a.mp3"; reg "b.flac"; reg "cover.jpg"]);
    ("/music/ArtistB", Fulfilled []);
    ("/music/ArtistC", Fulfilled [dir "Album2"; reg "notes.txt"]);
    ("/music/ArtistC/Album2", Fulfilled [reg "c.OGG"; reg "d.m4a"]) ].

Definition probes1 : list (string * Common) :=
  [ ("/music/ArtistA/Album1/a.mp3", tagged "Song1" ["Pop"]);
    ("/music/ArtistC/Album2/c.OGG", tagged "Song2" ["Rock"; "Jazz"]);
    ("/music/ArtistC/Album2/d.m4a",
      {| common_title := Some ""; common_genre := Some ["Jazz"; "Blues"] |}) ].

(** The same library when the directory of ArtistB cannot be listed. *)
Definition listings2 : list (string * Settled (list Dirent)) :=
  [ ("/music", Fulfilled [dir "ArtistA"; dir "ArtistB"; dir "ArtistC"]);
    ("/music/ArtistA", Fulfilled [dir "Album1"]);
    ("/music/ArtistA/Album1", Fulfilled [reg "a.mp3"; reg "b.flac"; reg "cover.jpg"]);
    ("/music/ArtistB", Rejected "EACCES: permission denied, scandir '/music/ArtistB'");
    ("/music/ArtistC", Fulfilled [dir "Album2"; reg "notes.txt"]);
    ("/music/ArtistC/Album2", Fulfilled [reg "c.OGG"; reg "d.m4a"]) ].

(** An album of twenty-five files, probed in batches of 10, 10 and 5;
    the files numbered 3, 10, 17 and 24 are corrupt and the probes
    complete out of order. *)
Definition trackPath (n : nat) : string := "/lib/X/Big/t" ++ showNat n ++ ".mp3".

Definition listings3 : list (string * Settled (list Dirent)) :=
  [ ("/lib", Fulfilled [dir "X"]);
    ("/lib/X", Fulfilled [dir "Big"]);
    ("/lib/X/Big",
      Fulfilled (map (fun n => reg ("t" ++ showNat n ++ ".mp3")) (seq 1 25))) ].

Definition probes3 : list (string * Common) :=
  map (fun n => (trackPath n,
                 tagged ("Track " ++ showNat n)
                        [if Nat.even n then "Rock" else "Jazz"]))
      (filter (fun n => negb (n mod 7 =? 3)%nat) (seq 1 25)).

Definition latency3 (p : string) : nat :=
  match lookup (map (fun n => (trackPath n, (n * 7) mod 5)) (seq 1 25)) p with
  | Some t => t
  | None => 0
  end.

Abbreviation album3 := (processAlbum Posix.join Posix.extname Posix.toLowerCase (fsOf listings3) (probeOf probes3) latency3).
Abbreviation scan3 := (scanDirectory Posix.join Posix.extname Posix.toLowerCase (fsOf listings3) (probeOf probes3) latency3).

Abbreviation scan1 := (scanDirectory Posix.join Posix.extname Posix.toLowerCase (fsOf listings1) (probeOf probes1) noLatency).
Abbreviation scan2 := (scanDirectory Posix.join Posix.extname Posix.toLowerCase (fsOf listings2) (probeOf probes1) noLatency).
Abbreviation album1 := (processAlbum Posix.join Posix.extname Posix.toLowerCase (fsOf listings1) (probeOf probes1) noLatency).
Abbreviation main1 := (main Posix.join Posix.extname Posix.dirname Posix.toLowerCase (fsOf listings1) (probeOf probes1) noLatency).
Abbreviation main2 := (main Posix.join Posix.extname Posix.dirname Posix.toLowerCase (fsOf listings2) (probeOf probes1) noLatency).

(** A file system in which only the kinds of some paths are known. *)
Definition kindsOf (kinds : list (string * EntryKind)) : FsPromises :=
  {| readdir := fun p => Rejected ("ENOTDIR: not a directory, scandir '" ++ p ++ "'");
     access := fun _ => Fulfilled tt;
     stat := fun p =>
       match lookup kinds p with
       | Some k => Fulfilled k
       | None => Rejected ("ENOENT: no such file or directory, stat '" ++ p ++ "'")
       end;
     mkdir := fun _ => Fulfilled tt;
     writeFile := fun _ _ => Fulfilled tt |}.

Definition kinds1 : list (string * EntryKind) :=
  [("/out", KDirectory); ("/out/library.json", KFile)].

Definition argv1 : Argv :=
  {| music_dir := Some "/music"; output := "/out"; limit_ := 0 |}.

(** The values of some runs. *)
Definition scan1_result := Eval vm_compute in scan1 "/music" 0%Z emptyWorld.
Definition scan1_limit2_result := Eval vm_compute in scan1 "/music" 2%Z emptyWorld.
Definition scan3_result := Eval vm_compute in scan3 "/lib" 0%Z emptyWorld.
Definition scan2_result := Eval vm_compute in scan2 "/music" 0%Z emptyWorld.
Definition scan2_limit1_result := Eval vm_compute in scan2 "/music" 1%Z emptyWorld.
Definition main2_result := Eval vm_compute in main2 argv1 emptyWorld.

(** Variants of a file system: one that cannot be written to, one in
    which no directory can be created. *)
Definition readOnly (fs : FsPromises) : FsPromises :=
  {| readdir := readdir fs; access := access fs; stat := stat fs; mkdir := mkdir fs;
     writeFile := fun p _ =>
       Rejected ("EROFS: read-only file system, open '" ++ p ++ "'") |}.

Definition noMkdir (fs : FsPromises) : FsPromises :=
  {| readdir := readdir fs; access := access fs; stat := stat fs;
     mkdir := fun p => Rejected ("EACCES: permission denied, mkdir '" ++ p ++ "'");
     writeFile := writeFile fs |}.

Abbreviation main1ro := (main Posix.join Posix.extname Posix.dirname Posix.toLowerCase (readOnly (fsOf listings1)) (probeOf probes1) noLatency).
Abbreviation main1nomkdir := (main Posix.join Posix.extname Posix.dirname Posix.toLowerCase (noMkdir (fsOf listings1)) (probeOf probes1) noLatency).
Abbreviation album3inOrder := (processAlbum Posix.join Posix.extname Posix.toLowerCase (fsOf listings3) (probeOf probes3) noLatency).

Definition argv3 : Argv :=
  {| music_dir := Some "/lib"; output := "/out/lib.json"; limit_ := 0 |}.

(** The album of twenty-five files when every third file is corrupt:
    eight errors. *)
Definition probes4 : list (string * Common) :=
  map (fun n => (trackPath n, tagged ("Track " ++ showNat n) ["Rock"]))
      (filter (fun n => negb (n mod 3 =? 0)%nat) (seq 1 25)).

Abbreviation scan4 := (scanDirectory Posix.join Posix.extname Posix.toLowerCase (fsOf listings3) (probeOf probes4) latency3).
Abbreviation main4 := (main Posix.join Posix.extname Posix.dirname Posix.toLowerCase (fsOf listings3) (probeOf probes4) latency3).

Definition scan4_result := Eval vm_compute in scan4 "/lib" 0%Z emptyWorld.
Definition album1_result :=
  Eval vm_compute in album1 "/music/ArtistC/Album2" "Album2" emptyWorld.

(** Two values that reach the handler of uncaught exceptions: the error
    of closing an invalid file descriptor, and a missing file. *)
Definition ebadfOnClose : Thrown :=
  {| isObject := true;
     code := Some (JsString "EBADF");
     syscall := Some (JsString "close");
     stack := Some (JsString "Error: EBADF: bad file descriptor, close");
     text := "EBADF: bad file descriptor, close" |}.

Definition enoentOnOpen : Thrown :=
  {| isObject := true;
     code := Some (JsString "ENOENT");
     syscall := Some (JsString "open");
     stack := Some (JsString "Error: ENOENT: no such file or directory, open 'x'");
     text := "ENOENT: no such file or directory, open 'x'" |}.

Definition noMatch (s : string) : option string := None.

(** A package file: its text and what it parses to. *)
Definition readPackage (p : string) : Settled string :=
  if string_dec p "/app/package.json" then Fulfilled "package.json v2"
  else Rejected ("ENOENT: no such file or directory, open '" ++ p ++ "'").

Definition parsePackage (contents : string) : Settled Json :=
  if string_dec contents "package.json v2"
  then Fulfilled (JObject [("name", JText "music2json"); ("version", JText "2.3.4")])
  else Rejected "SyntaxError: Unexpected token".

End Library.

(** * Properties *)

(** ** Built-ins *)

Lemma fold_Set_add_In (gs s : list string) (g : string) :
  In g (fold_left Set_add gs s) <-> In g s \/ In g gs.
Proof.
  revert s. induction gs as [|x gs IH]; intros s; simpl.
  - tauto.
  - rewrite IH. unfold Set_add.
    destruct (in_dec string_dec x s) as [Hx|Hx].
    + intuition (subst; auto).
    + rewrite in_app_iff. simpl. intuition (subst; auto).
Qed.

Lemma fold_Set_add_NoDup (gs s : list string) :
  NoDup s -> NoDup (fold_left Set_add gs s).
Proof.
  revert s. induction gs as [|x gs IH]; intros s Hs; simpl; [assumption|].
  apply IH. unfold Set_add.
  destruct (in_dec string_dec x s) as [Hx|Hx]; [assumption|].
  apply NoDup_app; [assumption | repeat constructor; simpl; tauto |].
  intros y Hy [<-|[]]. contradiction.
Qed.

Lemma nonNull_app {A} (l1 l2 : list (option A)) :
  nonNull (l1 ++ l2) = nonNull l1 ++ nonNull l2.
Proof.
  induction l1 as [|[a|] l1 IH]; simpl; [reflexivity | f_equal; exact IH | exact IH].
Qed.

Lemma slice_batch {A} (l : list A) (i : nat) :
  i < length l ->
  slice i (Nat.min (i + batchSize) (length l)) l = firstn batchSize (skipn i l).
Proof.
  intros Hi. unfold slice.
  destruct (Nat.le_ge_cases (i + batchSize) (length l)) as [H|H].
  - rewrite Nat.min_l by assumption. f_equal. lia.
  - rewrite Nat.min_r by assumption.
    rewrite (firstn_all2 (n := batchSize)) by (rewrite length_skipn; lia).
    apply firstn_all2. rewrite length_skipn. lia.
Qed.

(** The batches of the loop are consecutive pieces of the file list. *)
Lemma concat_batchesFrom (l : list Dirent) (fuel i : nat) :
  length l - i <= fuel ->
  concat (batchesFrom fuel l i) = skipn i l.
Proof.
  revert i. induction fuel as [|fuel IH]; intros i Hf; simpl.
  - symmetry. apply skipn_all2. lia.
  - destruct (Nat.ltb_spec i (length l)) as [Hi|Hi].
    + simpl. rewrite slice_batch by assumption.
      rewrite IH by (unfold batchSize; lia).
      rewrite Nat.add_comm, <- skipn_skipn. apply firstn_skipn.
    + symmetry. apply skipn_all2. lia.
Qed.

(** ** processAlbum *)

Section AlbumFacts.

Variable join : string -> string -> string.
Variable extname : string -> string.
Variable toLowerCase : string -> string.
Variable fs : FsPromises.
Variable parseFile : string -> Settled Common.
Variable latency : string -> nat.

Abbreviation settle := (settle join parseFile).
Abbreviation trackOf := (trackOf join parseFile).
Abbreviation errorsOf := (errorsOf join parseFile).
Abbreviation genresOf := (genresOf join parseFile).
Abbreviation probeFails := (probeFails join parseFile).
Abbreviation completionOrder := (completionOrder join latency).
Abbreviation processBatch := (processBatch join parseFile latency).
Abbreviation batchLoop := (fun fuel => batchLoop join parseFile latency fuel).
Abbreviation isMusicFile := (isMusicFile extname toLowerCase).
Abbreviation processAlbum := (processAlbum join extname toLowerCase fs parseFile latency).
Abbreviation albumResult := (albumResult join extname toLowerCase fs parseFile latency).

(** The probes of a batch complete in some order of the batch. *)
Lemma insertByLatency_perm (p : string) (f : Dirent) (l : list Dirent) :
  Permutation (insertByLatency join latency p f l) (f :: l).
Proof.
  induction l as [|g l IH]; simpl; [reflexivity|].
  destruct (_ <=? _)%nat; [reflexivity|].
  rewrite IH. apply perm_swap.
Qed.

Lemma completionOrder_perm (p : string) (batch : list Dirent) :
  Permutation (completionOrder p batch) batch.
Proof.
  induction batch as [|f batch IH]; simpl; [reflexivity|].
  rewrite insertByLatency_perm. now constructor.
Qed.

(** What a run of callbacks leaves in the shared objects. *)
Lemma settle_errors (p : string) (l : list Dirent) (sh : Shared) :
  errors_ (fold_left (settle p) l sh) = errors_ sh ++ errorsOf p l.
Proof.
  revert sh. induction l as [|f l IH]; intros sh; simpl.
  - now rewrite app_nil_r.
  - rewrite IH. unfold settle.
    destruct (parseFile (join p (name f))); simpl.
    + reflexivity.
    + now rewrite <- app_assoc.
Qed.

Lemma settle_genres (p : string) (l : list Dirent) (sh : Shared) :
  allGenres (fold_left (settle p) l sh)
  = fold_left Set_add (genresOf p l) (allGenres sh).
Proof.
  revert sh. induction l as [|f l IH]; intros sh; simpl; [reflexivity|].
  rewrite IH, fold_left_app. unfold settle.
  destruct (parseFile (join p (name f))) as [c|m]; simpl; [|reflexivity].
  destruct (common_genre c); reflexivity.
Qed.

(** As many tracks as fulfilled probes, as many errors as rejected ones. *)
Lemma tracks_count (p : string) (l : list Dirent) :
  length (nonNull (map (trackOf p) l)) + length (filter (probeFails p) l) = length l.
Proof.
  induction l as [|f l IH]; simpl; [reflexivity|].
  unfold trackOf, probeFails in *.
  destruct (parseFile (join p (name f))); simpl; lia.
Qed.

Lemma errorsOf_failed (p : string) (l : list Dirent) :
  map file (errorsOf p l) = map (fun f => join p (name f)) (filter (probeFails p) l).
Proof.
  induction l as [|f l IH]; simpl; [reflexivity|].
  unfold probeFails.
  destruct (parseFile (join p (name f))); simpl; [exact IH | f_equal; exact IH].
Qed.

Lemma errorsOf_app (p : string) (l1 l2 : list Dirent) :
  errorsOf p (l1 ++ l2) = errorsOf p l1 ++ errorsOf p l2.
Proof. apply flat_map_app. Qed.

Lemma genresOf_app (p : string) (l1 l2 : list Dirent) :
  genresOf p (l1 ++ l2) = genresOf p l1 ++ genresOf p l2.
Proof. apply flat_map_app. Qed.

(** One batch: tracks in submission order, errors and genres of the
    batch in completion order. *)
Lemma processBatch_tracks (p : string) (batch : list Dirent) st :
  fst (processBatch p batch st) = fst st ++ nonNull (map (trackOf p) batch).
Proof. reflexivity. Qed.

Lemma processBatch_errors (p : string) (batch : list Dirent) st :
  Permutation (errors_ (snd (processBatch p batch st)))
              (errors_ (snd st) ++ errorsOf p batch).
Proof.
  unfold processBatch. simpl. rewrite settle_errors.
  apply Permutation_app_head.
  apply Permutation_flat_map, completionOrder_perm.
Qed.

Lemma processBatch_genres (p : string) (batch : list Dirent) st :
  (NoDup (allGenres (snd st)) -> NoDup (allGenres (snd (processBatch p batch st))))
  /\ forall g, In g (allGenres (snd (processBatch p batch st)))
               <-> In g (allGenres (snd st)) \/ In g (genresOf p batch).
Proof.
  unfold processBatch. simpl. rewrite settle_genres. split.
  - apply fold_Set_add_NoDup.
  - intros g. rewrite fold_Set_add_In.
    assert (Hp : Permutation (genresOf p (completionOrder p batch)) (genresOf p batch))
      by apply Permutation_flat_map, completionOrder_perm.
    split; (intros [H|H]; [now left | right]).
    + now apply (Permutation_in _ Hp).
    + now apply (Permutation_in _ (Permutation_sym Hp)).
Qed.

(** The loop is a left fold of [processBatch] over its batches. *)
Lemma batchLoop_fold (p : string) (l : list Dirent) (fuel i : nat) st :
  batchLoop fuel p l i st
  = fold_left (fun st batch => processBatch p batch st) (batchesFrom fuel l i) st.
Proof.
  revert i st. induction fuel as [|fuel IH]; intros i st; simpl; [reflexivity|].
  destruct (i <? length l)%nat; simpl; [apply IH | reflexivity].
Qed.

Lemma fold_batches_tracks (p : string) (bs : list (list Dirent)) st :
  fst (fold_left (fun st batch => processBatch p batch st) bs st)
  = fst st ++ nonNull (map (trackOf p) (concat bs)).
Proof.
  revert st. induction bs as [|b bs IH]; intros st; simpl.
  - now rewrite app_nil_r.
  - rewrite IH, processBatch_tracks, map_app, nonNull_app. now rewrite app_assoc.
Qed.

Lemma fold_batches_errors (p : string) (bs : list (list Dirent)) st :
  Permutation (errors_ (snd (fold_left (fun st batch => processBatch p batch st) bs st)))
              (errors_ (snd st) ++ errorsOf p (concat bs)).
Proof.
  revert st. induction bs as [|b bs IH]; intros st; simpl.
  - now rewrite app_nil_r.
  - rewrite IH, errorsOf_app, app_assoc.
    apply Permutation_app_tail, processBatch_errors.
Qed.

Lemma fold_batches_genres (p : string) (bs : list (list Dirent)) st :
  (NoDup (allGenres (snd st)) ->
   NoDup (allGenres (snd (fold_left (fun st batch => processBatch p batch st) bs st))))
  /\ forall g,
      In g (allGenres (snd (fold_left (fun st batch => processBatch p batch st) bs st)))
      <-> In g (allGenres (snd st)) \/ In g (genresOf p (concat bs)).
Proof.
  revert st. induction bs as [|b bs IH]; intros st; simpl.
  - split; [tauto | intros g; tauto].
  - destruct (IH (processBatch p b st)) as [IH1 IH2].
    destruct (processBatch_genres p b st) as [B1 B2]. split.
    + auto.
    + intros g. rewrite IH2, B2, genresOf_app, in_app_iff. tauto.
Qed.

(** [processAlbum] never throws and leaves the world alone. *)
Lemma processAlbum_run (albumPath albumName : string) (w : World) :
  processAlbum albumPath albumName w = (w, Returns (albumResult albumPath albumName)).
Proof.
  unfold processAlbum, albumResult, try_catch, bind, await, ret.
  destruct (readdir fs albumPath) as [trackFiles|msg]; [|reflexivity].
  destruct (_ =? 0)%nat; reflexivity.
Qed.

(** The result on a directory that can be listed. *)
Lemma albumResult_listed (albumPath albumName : string) (trackFiles : list Dirent) :
  readdir fs albumPath = Fulfilled trackFiles ->
  let musicFiles := filter isMusicFile trackFiles in
  let ts := nonNull (map (trackOf albumPath) musicFiles) in
  exists gs es,
    albumResult albumPath albumName
    = (match ts with
       | [] => None
       | _ => Some {| albumTitle := albumName; genres := gs; tracks := ts |}
       end, es)
    /\ Permutation es (errorsOf albumPath musicFiles)
    /\ NoDup gs
    /\ forall g, In g gs <-> In g (genresOf albumPath musicFiles).
Proof.
  intros Hls musicFiles ts. unfold albumResult. rewrite Hls. fold musicFiles.
  destruct (Nat.eqb_spec (length musicFiles) 0) as [Hz|Hz].
  - apply length_zero_iff_nil in Hz. subst ts. rewrite Hz. simpl.
    exists [], []. repeat split; auto using NoDup_nil.
  - set (st0 := (@nil Track, {| allGenres := []; errors_ := [] |})).
    rewrite batchLoop_fold.
    set (bs := batchesFrom (length musicFiles) musicFiles 0).
    assert (Hc : concat bs = musicFiles).
    { unfold bs. rewrite concat_batchesFrom by lia. reflexivity. }
    pose proof (fold_batches_tracks albumPath bs st0) as Ht.
    pose proof (fold_batches_errors albumPath bs st0) as He.
    destruct (fold_batches_genres albumPath bs st0) as [Hn Hg].
    rewrite Hc in Ht, He, Hg. simpl in Ht, He, Hg, Hn. fold ts in Ht.
    set (st := fold_left _ bs st0) in *.
    exists (allGenres (snd st)), (errors_ (snd st)).
    rewrite Ht. split; [|split; [exact He | split; [apply Hn; constructor|]]].
    + destruct ts; reflexivity.
    + intros g. rewrite Hg. tauto.
Qed.

End AlbumFacts.

(** ** scanDirectory *)

Section ScanFacts.

Variable join : string -> string -> string.
Variable extname : string -> string.
Variable toLowerCase : string -> string.
Variable fs : FsPromises.
Variable parseFile : string -> Settled Common.
Variable latency : string -> nat.

Abbreviation isMusicFile := (isMusicFile extname toLowerCase).
Abbreviation trackOf := (trackOf join parseFile).
Abbreviation processAlbum := (processAlbum join extname toLowerCase fs parseFile latency).
Abbreviation albumResult := (albumResult join extname toLowerCase fs parseFile latency).
Abbreviation albumLoop := (albumLoop join extname toLowerCase fs parseFile latency).
Abbreviation artistLoop := (artistLoop join extname toLowerCase fs parseFile latency).
Abbreviation scanDirectory := (scanDirectory join extname toLowerCase fs parseFile latency).
Abbreviation albumsOf := (albumsOf join extname toLowerCase fs parseFile latency).
Abbreviation albumErrorsOf := (albumErrorsOf join extname toLowerCase fs parseFile latency).
Abbreviation artistsOf := (artistsOf join extname toLowerCase fs parseFile latency).

(** The loop over one artist directory always returns. *)
Lemma albumLoop_run (artistPath : string) (albumDirs : list Dirent) acc (w : World) :
  albumLoop artistPath albumDirs acc w
  = (w, Returns (fst acc ++ albumsOf artistPath albumDirs,
                 snd acc ++ albumErrorsOf artistPath albumDirs)).
Proof.
  revert acc. induction albumDirs as [|d rest IH]; intros [als errs]; simpl.
  - unfold ret. now rewrite !app_nil_r.
  - unfold albumsOf, albumErrorsOf in *. simpl.
    destruct (isDirectory d); simpl; [|apply IH].
    unfold bind at 1. rewrite processAlbum_run, IH. simpl.
    destruct (fst (albumResult _ _)); simpl; rewrite <- ?app_assoc; reflexivity.
Qed.

(** One turn of the loop over the root entries. *)
Lemma artistLoop_cons (directory : string) (d : Dirent) (rest : list Dirent) acc
      (w : World) :
  artistLoop directory (d :: rest) acc w
  = if isDirectory d then
      let w1 := {| console := console w
                              ++ [(Stdout, ("Processing artist: " ++ name d)%string)];
                   files := files w |} in
      match readdir fs (join directory (name d)) with
      | Fulfilled albumDirs =>
          let als := albumsOf (join directory (name d)) albumDirs in
          artistLoop directory rest
                     (if (0 <? length als)%nat
                      then fst acc ++ [{| artistName := name d; albums := als |}]
                      else fst acc,
                      snd acc ++ albumErrorsOf (join directory (name d)) albumDirs)
                     w1
      | Rejected msg => (w1, Throws msg)
      end
    else artistLoop directory rest acc w.
Proof.
  simpl. destruct (isDirectory d); [|reflexivity].
  unfold bind at 1, console_log at 1. unfold bind at 1, await at 1.
  destruct (readdir fs (join directory (name d))); [|reflexivity].
  unfold bind at 1. rewrite albumLoop_run. reflexivity.
Qed.

(** The loop over the root entries, when it returns. *)
Lemma artistLoop_returns (directory : string) (toProcess : list Dirent) acc
      (w w' : World) r :
  artistLoop directory toProcess acc w = (w', Returns r) ->
  fst r = fst acc ++ artistsOf directory toProcess
  /\ console w' = console w ++ processingLines toProcess
  /\ files w' = files w
  /\ Forall (fun artistDir =>
               exists albumDirs,
                 readdir fs (join directory (name artistDir)) = Fulfilled albumDirs)
            (filter isDirectory toProcess).
Proof.
  revert acc w. induction toProcess as [|d rest IH]; intros acc w; simpl.
  - unfold ret. intros [= <- <-]. unfold artistsOf, processingLines. simpl.
    rewrite !app_nil_r. repeat split. constructor.
  - unfold artistsOf, processingLines in *. simpl.
    destruct (isDirectory d); simpl; [|apply IH].
    unfold bind at 1, console_log at 1. unfold bind at 1, await at 1.
    destruct (readdir fs (join directory (name d))) as [albumDirs|msg] eqn:Hr;
      [|discriminate].
    unfold bind at 1. rewrite albumLoop_run. simpl.
    intros H. apply IH in H. simpl in H. destruct H as (Ha & Hc & Hf & Hl).
    rewrite Ha, Hc, Hf. repeat split.
    + destruct (albumsOf _ albumDirs); simpl; [reflexivity|].
      now rewrite <- app_assoc.
    + now rewrite <- app_assoc.
    + constructor; [now exists albumDirs | exact Hl].
Qed.

(** Nothing in the loop ends the process. *)
Lemma artistLoop_no_exit (directory : string) (toProcess : list Dirent) acc
      (w w' : World) (code : Z) :
  artistLoop directory toProcess acc w <> (w', Exits code).
Proof.
  revert acc w. induction toProcess as [|d rest IH]; intros acc w; simpl;
    [discriminate|].
  destruct (isDirectory d); simpl; [|apply IH].
  unfold bind at 1, console_log at 1. unfold bind at 1, await at 1.
  destruct (readdir fs (join directory (name d))); [|discriminate].
  unfold bind at 1. rewrite albumLoop_run. apply IH.
Qed.

(** A listing failure inside an artist directory leaves the loop as an
    exception. *)
Lemma artistLoop_throws (directory : string) (toProcess : list Dirent) acc
      (w : World) (artistDir : Dirent) (msg : string) :
  In artistDir toProcess ->
  isDirectory artistDir = true ->
  readdir fs (join directory (name artistDir)) = Rejected msg ->
  exists w' msg', artistLoop directory toProcess acc w = (w', Throws msg').
Proof.
  intros Hin Hd Hr.
  destruct (artistLoop directory toProcess acc w) as [w' [r|m|c]] eqn:E.
  - apply artistLoop_returns in E. destruct E as (_ & _ & _ & Hl).
    rewrite Forall_forall in Hl.
    destruct (Hl artistDir) as [albumDirs Ha].
    + apply filter_In. now split.
    + congruence.
  - now exists w', m.
  - now apply artistLoop_no_exit in E.
Qed.

(** Whether the loop returns is decided by the listings alone. *)
Lemma artistLoop_total (directory : string) (toProcess : list Dirent) acc (w : World) :
  Forall (fun artistDir =>
            exists albumDirs,
              readdir fs (join directory (name artistDir)) = Fulfilled albumDirs)
         (filter isDirectory toProcess) ->
  exists w' r, artistLoop directory toProcess acc w = (w', Returns r).
Proof.
  revert acc w. induction toProcess as [|d rest IH]; intros acc w H.
  - simpl. unfold ret. eauto.
  - rewrite artistLoop_cons. simpl in H.
    destruct (isDirectory d); [|now apply IH].
    inversion H as [|? ? [albumDirs Hd] Hrest]; subst.
    rewrite Hd. cbv zeta. now apply IH.
Qed.

Lemma scanDirectory_listings (directory : string) (limit : Z) (w w' : World) r :
  scanDirectory directory limit w = (w', Returns r) ->
  exists artistDirs,
    readdir fs directory = Fulfilled artistDirs
    /\ Forall (fun artistDir =>
                 exists albumDirs,
                   readdir fs (join directory (name artistDir)) = Fulfilled albumDirs)
              (filter isDirectory (dirsToProcess artistDirs limit)).
Proof.
  unfold scanDirectory. unfold bind at 1, console_log at 1.
  unfold bind at 1, await at 1.
  destruct (readdir fs directory) as [artistDirs|msg]; [|discriminate].
  intros H. apply artistLoop_returns in H. exists artistDirs. tauto.
Qed.

Lemma scanDirectory_total (directory : string) (limit : Z) (artistDirs : list Dirent)
      (w : World) :
  readdir fs directory = Fulfilled artistDirs ->
  Forall (fun artistDir =>
            exists albumDirs,
              readdir fs (join directory (name artistDir)) = Fulfilled albumDirs)
         (filter isDirectory (dirsToProcess artistDirs limit)) ->
  exists w' r, scanDirectory directory limit w = (w', Returns r).
Proof.
  intros Hr H. unfold scanDirectory. unfold bind at 1, console_log at 1.
  unfold bind at 1, await at 1. rewrite Hr. now apply artistLoop_total.
Qed.

Lemma scanDirectory_returns (directory : string) (limit : Z) (w w' : World) r :
  scanDirectory directory limit w = (w', Returns r) ->
  exists artistDirs,
    readdir fs directory = Fulfilled artistDirs
    /\ fst r = artistsOf directory (dirsToProcess artistDirs limit)
    /\ console w' = console w
                    ++ (Stdout, ("Scanning directory: " ++ directory)%string)
                       :: processingLines (dirsToProcess artistDirs limit)
    /\ files w' = files w.
Proof.
  unfold scanDirectory. unfold bind at 1, console_log at 1.
  unfold bind at 1, await at 1.
  destruct (readdir fs directory) as [artistDirs|msg]; [|discriminate].
  intros H. apply artistLoop_returns in H. simpl in H.
  destruct H as (Ha & Hc & Hf & _).
  exists artistDirs. rewrite Ha, Hc, Hf, <- app_assoc. auto.
Qed.

(** An album that is returned has a track; so has every album of every
    artist of the result, and every such artist has an album. *)
Lemma albumResult_has_track (albumPath albumName : string) (a : Album) :
  fst (albumResult albumPath albumName) = Some a -> tracks a <> [].
Proof.
  unfold albumResult.
  destruct (readdir fs albumPath) as [trackFiles|]; [|discriminate].
  destruct (_ =? 0)%nat; [discriminate|]. simpl.
  destruct (Nat.ltb_spec 0 (length (fst (batchLoop join parseFile latency
    (length (filter isMusicFile trackFiles)) albumPath
    (filter isMusicFile trackFiles) 0
    ([], {| allGenres := []; errors_ := [] |}))))) as [Hl|Hl]; [|discriminate].
  intros [= <-]. simpl. intros E. rewrite E in Hl. simpl in Hl. lia.
Qed.

Lemma albumsOf_have_tracks (artistPath : string) (albumDirs : list Dirent) :
  Forall (fun al => tracks al <> []) (albumsOf artistPath albumDirs).
Proof.
  unfold albumsOf. apply Forall_flat_map, Forall_forall. intros d _.
  destruct (fst (albumResult _ _)) as [a|] eqn:E; constructor; [|constructor].
  now apply albumResult_has_track in E.
Qed.

Lemma artistsOf_have_albums (directory : string) (toProcess : list Dirent) :
  Forall (fun ar => albums ar <> [] /\ Forall (fun al => tracks al <> []) (albums ar))
         (artistsOf directory toProcess).
Proof.
  unfold artistsOf. apply Forall_flat_map, Forall_forall. intros d _.
  destruct (readdir fs (join directory (name d))) as [albumDirs|]; [|constructor].
  pose proof (albumsOf_have_tracks (join directory (name d)) albumDirs) as H.
  destruct (albumsOf _ albumDirs) as [|al als]; constructor; [|constructor].
  simpl. split; [discriminate | exact H].
Qed.

(** At most one artist per directory to process. *)
Lemma artistsOf_length (directory : string) (toProcess : list Dirent) :
  length (artistsOf directory toProcess) <= length (filter isDirectory toProcess).
Proof.
  unfold artistsOf. induction (filter isDirectory toProcess) as [|d l IH]; simpl;
    [lia|].
  rewrite length_app.
  destruct (readdir fs (join directory (name d))) as [albumDirs|]; simpl; [|lia].
  destruct (albumsOf _ albumDirs); simpl; lia.
Qed.

(** The outline of the result is the one read off the listings. *)
Lemma albumResult_outline (albumPath albumName : string) :
  match fst (albumResult albumPath albumName) with
  | Some a =>
      albumOutline a = (albumName, tracksInListingOrder join extname toLowerCase fs parseFile albumPath)
      /\ tracksInListingOrder join extname toLowerCase fs parseFile albumPath <> []
  | None => tracksInListingOrder join extname toLowerCase fs parseFile albumPath = []
  end.
Proof.
  unfold tracksInListingOrder.
  destruct (readdir fs albumPath) as [trackFiles|msg] eqn:Hr.
  - destruct (albumResult_listed join extname toLowerCase fs parseFile latency
                albumPath albumName trackFiles Hr) as (gs & es & E & _).
    cbv zeta in E. rewrite E. simpl.
    destruct (nonNull _); simpl; [reflexivity|]. split; [reflexivity|discriminate].
  - unfold albumResult. rewrite Hr. reflexivity.
Qed.

Lemma albumsOf_outline (artistPath : string) (albumDirs : list Dirent) :
  readdir fs artistPath = Fulfilled albumDirs ->
  map albumOutline (albumsOf artistPath albumDirs)
  = albumsInListingOrder join extname toLowerCase fs parseFile artistPath.
Proof.
  intros Hr. unfold albumsInListingOrder, albumsOf. rewrite Hr.
  induction (filter isDirectory albumDirs) as [|d l IH]; simpl; [reflexivity|].
  rewrite map_app, IH. f_equal.
  pose proof (albumResult_outline (join artistPath (name d)) (name d)) as H.
  destruct (fst (albumResult _ _)) as [a|].
  - destruct H as [H1 H2]. simpl. rewrite H1.
    destruct (tracksInListingOrder _ _ _ _ _ _); [contradiction|reflexivity].
  - rewrite H. reflexivity.
Qed.

Lemma artistsOf_outline (directory : string) (toProcess : list Dirent) :
  map artistOutline (artistsOf directory toProcess)
  = artistsInListingOrder join extname toLowerCase fs parseFile directory toProcess.
Proof.
  unfold artistsInListingOrder, artistsOf.
  induction (filter isDirectory toProcess) as [|d l IH]; simpl; [reflexivity|].
  rewrite map_app, IH. f_equal.
  destruct (readdir fs (join directory (name d))) as [albumDirs|msg] eqn:Hr.
  - rewrite <- (albumsOf_outline _ albumDirs Hr).
    destruct (albumsOf _ albumDirs); reflexivity.
  - unfold albumsInListingOrder. rewrite Hr. reflexivity.
Qed.

End ScanFacts.

(** * The claims *)

Section AlbumClaims.

Variable join : string -> string -> string.
Variable extname : string -> string.
Variable toLowerCase : string -> string.
Variable fs : FsPromises.
Variable parseFile : string -> Settled Common.
Variable latency : string -> nat.

Abbreviation isMusicFile := (isMusicFile extname toLowerCase).
Abbreviation trackOf := (trackOf join parseFile).
Abbreviation probeFails := (probeFails join parseFile).
Abbreviation processAlbum := (processAlbum join extname toLowerCase fs parseFile latency).
Abbreviation albumResult := (albumResult join extname toLowerCase fs parseFile latency).

(** C3.  An album directory with N supported files of which K fail to
    probe: [processAlbum] returns, with an album of exactly N-K tracks
    when N-K > 0 and no album otherwise, and with exactly K errors, one
    for the path of each failed file.  All N files are accounted for,
    whatever batch they fall in. *)
Theorem processAlbum_completeness
        (albumPath albumName : string) (trackFiles : list Dirent) (w : World) :
  readdir fs albumPath = Fulfilled trackFiles ->
  let musicFiles := filter isMusicFile trackFiles in
  let failed := filter (probeFails albumPath) musicFiles in
  let N := length musicFiles in
  let K := length failed in
  K <= N
  /\ exists album errors,
      processAlbum albumPath albumName w = (w, Returns (album, errors))
      /\ length errors = K
      /\ Permutation (map file errors)
                     (map (fun trackFile => join albumPath (name trackFile)) failed)
      /\ if (0 <? N - K)%nat
         then exists a, album = Some a /\ length (tracks a) = N - K
         else album = None.
Proof.
  intros Hls musicFiles failed N K.
  pose proof (tracks_count join parseFile albumPath musicFiles) as Hcount.
  fold failed N K in Hcount.
  split; [lia|].
  destruct (albumResult_listed join extname toLowerCase fs parseFile latency
              albumPath albumName trackFiles Hls) as (gs & es & E & Hp & _).
  cbv zeta in E, Hp. fold musicFiles in E, Hp.
  rewrite processAlbum_run, E.
  eexists _, es. split; [reflexivity|].
  assert (Hf : Permutation (map file es)
                 (map (fun trackFile => join albumPath (name trackFile)) failed)).
  { unfold failed.
    rewrite <- (errorsOf_failed join parseFile albumPath musicFiles).
    now apply Permutation_map. }
  split; [|split; [exact Hf|]].
  - apply Permutation_length in Hf. now rewrite !length_map in Hf.
  - destruct (nonNull (map (trackOf albumPath) musicFiles)) as [|t ts] eqn:Et;
      simpl in Hcount.
    + replace (N - K) with 0 by lia. reflexivity.
    + destruct (Nat.ltb_spec 0 (N - K)); [|lia].
      eexists. split; [reflexivity|]. simpl. lia.
Qed.

(** C5.  The genres of a returned album have no duplicates and are
    exactly the genres reported by the fulfilled probes of the supported
    files of the album. *)
Theorem processAlbum_genres_union
        (albumPath albumName : string) (trackFiles : list Dirent)
        (w w' : World) (a : Album) (errors : list ProcessingError) :
  readdir fs albumPath = Fulfilled trackFiles ->
  processAlbum albumPath albumName w = (w', Returns (Some a, errors)) ->
  NoDup (genres a)
  /\ forall g,
      In g (genres a)
      <-> exists trackFile common genre,
            In trackFile (filter isMusicFile trackFiles)
            /\ parseFile (join albumPath (name trackFile)) = Fulfilled common
            /\ common_genre common = Some genre
            /\ In g genre.
Proof.
  intros Hls Hrun. rewrite processAlbum_run in Hrun.
  destruct (albumResult_listed join extname toLowerCase fs parseFile latency
              albumPath albumName trackFiles Hls) as (gs & es & E & _ & Hn & Hg).
  cbv zeta in E, Hg. rewrite E in Hrun.
  destruct (nonNull _) as [|t ts]; [discriminate|].
  injection Hrun as _ <- _. simpl. split; [exact Hn|].
  intros g. rewrite Hg. unfold genresOf. rewrite in_flat_map. split.
  - intros (f & Hf & Hin).
    destruct (parseFile (join albumPath (name f))) as [c|] eqn:Ep; [|contradiction].
    destruct (common_genre c) as [genre|] eqn:Eg; [|contradiction].
    now exists f, c, genre.
  - intros (f & c & genre & Hf & Ep & Eg & Hin).
    exists f. split; [exact Hf|]. now rewrite Ep, Eg.
Qed.

(** C7.  When the album directory cannot be listed, [processAlbum]
    returns (it does not throw) no album and the single error
    [{file: albumPath, error: message}]. *)
Theorem processAlbum_listing_failure
        (albumPath albumName msg : string) (w : World) :
  readdir fs albumPath = Rejected msg ->
  processAlbum albumPath albumName w
  = (w, Returns (None, [{| file := albumPath; error := msg |}])).
Proof.
  intros Hls. rewrite processAlbum_run. unfold albumResult. now rewrite Hls.
Qed.

(** C8, as amended.  A supported file whose probe is fulfilled yields a
    track of the album; its title is the metadata title when there is one
    and it is not the empty string, and the name of the directory entry
    when the metadata has no title or an empty one. *)
Theorem processAlbum_track_title
        (albumPath albumName : string) (trackFiles : list Dirent)
        (trackFile : Dirent) (common : Common) (w : World) :
  readdir fs albumPath = Fulfilled trackFiles ->
  In trackFile (filter isMusicFile trackFiles) ->
  parseFile (join albumPath (name trackFile)) = Fulfilled common ->
  exists t a errors,
    trackOf albumPath trackFile = Some t
    /\ processAlbum albumPath albumName w = (w, Returns (Some a, errors))
    /\ In t (tracks a)
    /\ (forall s, common_title common = Some s -> s <> "" -> title t = s)
    /\ (common_title common = None \/ common_title common = Some "" ->
        title t = name trackFile).
Proof.
  intros Hls Hin Hp.
  destruct (albumResult_listed join extname toLowerCase fs parseFile latency
              albumPath albumName trackFiles Hls) as (gs & es & E & _).
  cbv zeta in E. rewrite processAlbum_run, E.
  set (t := {| title := or_else (common_title common) (name trackFile) |}).
  assert (Ht : trackOf albumPath trackFile = Some t).
  { unfold trackOf. now rewrite Hp. }
  assert (Hmem : In t (nonNull (map (trackOf albumPath) (filter isMusicFile trackFiles)))).
  { revert Hin. generalize (filter isMusicFile trackFiles) as l.
    induction l as [|f l IH]; [contradiction|].
    simpl. intros [->|Hin].
    - rewrite Ht. now left.
    - destruct (trackOf albumPath f); [right|]; auto. }
  destruct (nonNull _) as [|t0 ts]; [contradiction|].
  exists t. eexists _, es. split; [exact Ht|]. split; [reflexivity|].
  split; [exact Hmem|]. subst t. simpl. split.
  - intros s -> Hs. simpl. now destruct (string_dec s "").
  - intros [->| ->]; reflexivity.
Qed.

End AlbumClaims.

Lemma processAlbum_completeness_witness :
  readdir (Library.fsOf Library.listings3) "/lib/X/Big"
  = Fulfilled (map (fun n => Library.reg ("t" ++ showNat n ++ ".mp3")) (seq 1 25))
  /\ exists album errors,
      Library.album3 "/lib/X/Big" "Big" emptyWorld = (emptyWorld, Returns (album, errors))
      /\ length errors = 4
      /\ Permutation (map file errors)
                     ["/lib/X/Big/t3.mp3"; "/lib/X/Big/t10.mp3";
                      "/lib/X/Big/t17.mp3"; "/lib/X/Big/t24.mp3"]
      /\ exists a, album = Some a /\ length (tracks a) = 21.
Proof.
  assert (H : readdir (Library.fsOf Library.listings3) "/lib/X/Big"
              = Fulfilled (map (fun n => Library.reg ("t" ++ showNat n ++ ".mp3")) (seq 1 25)))
    by reflexivity.
  split; [exact H|].
  destruct (processAlbum_completeness
              Posix.join Posix.extname Posix.toLowerCase
              (Library.fsOf Library.listings3) (Library.probeOf Library.probes3)
              Library.latency3 "/lib/X/Big" "Big" _ emptyWorld H)
    as (_ & album & errors & Hrun & Hlen & Hperm & Htracks).
  exists album, errors.
  split; [exact Hrun|]. split; [exact Hlen|]. split; [exact Hperm|]. exact Htracks.
Defined.

Lemma processAlbum_genres_union_witness :
  exists a errors,
    Library.album1 "/music/ArtistC/Album2" "Album2" emptyWorld
    = (emptyWorld, Returns (Some a, errors))
    /\ genres a = ["Rock"; "Jazz"; "Blues"]
    /\ NoDup (genres a).
Proof.
  eexists _, _. split; [vm_compute; reflexivity|]. split; [reflexivity|].
  apply (processAlbum_genres_union
           Posix.join Posix.extname Posix.toLowerCase
           (Library.fsOf Library.listings1) (Library.probeOf Library.probes1)
           Library.noLatency "/music/ArtistC/Album2" "Album2"
           [Library.reg "c.OGG"; Library.reg "d.m4a"] emptyWorld emptyWorld _ []).
  - reflexivity.
  - vm_compute. reflexivity.
Defined.

Lemma processAlbum_listing_failure_witness :
  Library.album1 "/music/ArtistC/Nope" "Nope" emptyWorld
  = (emptyWorld,
     Returns (None,
              [{| file := "/music/ArtistC/Nope";
                  error := "ENOENT: no such file or directory, scandir '/music/ArtistC/Nope'" |}])).
Proof.
  apply (processAlbum_listing_failure
           Posix.join Posix.extname Posix.toLowerCase
           (Library.fsOf Library.listings1) (Library.probeOf Library.probes1)
           Library.noLatency).
  reflexivity.
Defined.

(** C8 as stated fails: the metadata of [d.m4a] has a title, the empty
    string, and the title of its track is the file name. *)
Lemma title_present_but_empty :
  ~ (forall (join : string -> string -> string) (parseFile : string -> Settled Common)
            (albumPath : string) (trackFile : Dirent) (common : Common),
        parseFile (join albumPath (name trackFile)) = Fulfilled common ->
        exists t,
          trackOf join parseFile albumPath trackFile = Some t
          /\ (common_title common = None -> title t = name trackFile)
          /\ (forall s, common_title common = Some s -> title t = s)).
Proof.
  intros H.
  destruct (H Posix.join (Library.probeOf Library.probes1)
              "/music/ArtistC/Album2" (Library.reg "d.m4a") _ eq_refl)
    as (t & Ht & _ & Hs).
  vm_compute in Ht. injection Ht as <-.
  specialize (Hs "" eq_refl). discriminate Hs.
Qed.

Lemma processAlbum_track_title_witness :
  exists t a errors,
    trackOf Posix.join (Library.probeOf Library.probes1)
            "/music/ArtistC/Album2" (Library.reg "d.m4a") = Some t
    /\ Library.album1 "/music/ArtistC/Album2" "Album2" emptyWorld
       = (emptyWorld, Returns (Some a, errors))
    /\ In t (tracks a)
    /\ title t = "d.m4a".
Proof.
  destruct (processAlbum_track_title
              Posix.join Posix.extname Posix.toLowerCase
              (Library.fsOf Library.listings1) (Library.probeOf Library.probes1)
              Library.noLatency "/music/ArtistC/Album2" "Album2"
              [Library.reg "c.OGG"; Library.reg "d.m4a"] (Library.reg "d.m4a")
              {| common_title := Some ""; common_genre := Some ["Jazz"; "Blues"] |}
              emptyWorld eq_refl (or_intror (or_introl eq_refl)) eq_refl)
    as (t & a & errors & Ht & Hrun & Hin & _ & Hname).
  exists t, a, errors.
  split; [exact Ht|]. split; [exact Hrun|]. split; [exact Hin|].
  apply Hname. right. reflexivity.
Defined.

Section ScanClaims.

Variable join : string -> string -> string.
Variable extname : string -> string.
Variable toLowerCase : string -> string.
Variable fs : FsPromises.
Variable parseFile : string -> Settled Common.
Variable latency : string -> nat.

Abbreviation processAlbum := (processAlbum join extname toLowerCase fs parseFile latency).
Abbreviation albumResult := (albumResult join extname toLowerCase fs parseFile latency).
Abbreviation scanDirectory := (scanDirectory join extname toLowerCase fs parseFile latency).
Abbreviation artistsOf := (artistsOf join extname toLowerCase fs parseFile latency).

(** C1, as amended.  Let the root be listed, and let every artist
    directory among the entries to process be listable, these entries
    being the first [limit] entries of the root listing when [limit > 0]
    and all of them when [limit <= 0].  Then [scanDirectory] returns and
    has considered exactly the directories among the entries to process,
    in listing order (one "Processing artist" line each): an entry that is
    not a directory is skipped but uses up one place of the limit.  The
    artists of the result are read off these directories alone, so with
    [limit > 0] there are at most [limit] of them; with [limit <= 0] all
    the directories of the listing are processed. *)
Theorem scanDirectory_limit
        (root : string) (limit : Z) (artistDirs : list Dirent) (w : World) :
  readdir fs root = Fulfilled artistDirs ->
  let toProcess :=
    if (0 <? limit)%Z then firstn (Z.to_nat limit) artistDirs else artistDirs in
  Forall (fun artistDir =>
            exists albumDirs,
              readdir fs (join root (name artistDir)) = Fulfilled albumDirs)
         (filter isDirectory toProcess) ->
  exists w' artists errors,
    scanDirectory root limit w = (w', Returns (artists, errors))
    /\ console w'
       = console w
         ++ (Stdout, ("Scanning directory: " ++ root)%string)
            :: map (fun artistDir =>
                      (Stdout, ("Processing artist: " ++ name artistDir)%string))
                   (filter isDirectory toProcess)
    /\ map artistOutline artists
       = artistsInListingOrder join extname toLowerCase fs parseFile root toProcess
    /\ ((0 < limit)%Z -> length artists <= Z.to_nat limit)
    /\ ((limit <= 0)%Z ->
        console w'
        = console w
          ++ (Stdout, ("Scanning directory: " ++ root)%string)
             :: map (fun artistDir =>
                       (Stdout, ("Processing artist: " ++ name artistDir)%string))
                    (filter isDirectory artistDirs)).
Proof.
  intros Hls toProcess Hall.
  assert (Hd : dirsToProcess artistDirs limit = toProcess).
  { unfold dirsToProcess, slice, toProcess. now rewrite Nat.sub_0_r. }
  destruct (scanDirectory_total join extname toLowerCase fs parseFile latency
              root limit artistDirs w Hls) as (w' & [artists errors] & Hrun).
  { now rewrite Hd. }
  exists w', artists, errors. split; [exact Hrun|].
  apply scanDirectory_returns in Hrun.
  destruct Hrun as (artistDirs' & Hls' & Ha & Hc & _).
  rewrite Hls in Hls'. injection Hls' as <-. simpl in Ha.
  rewrite Hd in Ha, Hc. unfold processingLines in Hc.
  split; [exact Hc|]. split; [|split].
  - rewrite Ha. apply artistsOf_outline.
  - intros Hpos. rewrite Ha.
    etransitivity; [apply artistsOf_length|].
    etransitivity; [apply filter_length_le|].
    unfold toProcess. destruct (Z.ltb_spec 0 limit); [|lia].
    apply firstn_le_length.
  - intros Hneg. rewrite Hc. unfold toProcess.
    destruct (Z.ltb_spec 0 limit); [lia|reflexivity].
Qed.

(** C4.  An album returned by [processAlbum] has at least one track;
    every artist returned by [scanDirectory] has at least one album, and
    each of these albums has at least one track. *)
Theorem emitted_albums_and_artists_nonempty :
  (forall albumPath albumName w w' a errors,
      processAlbum albumPath albumName w = (w', Returns (Some a, errors)) ->
      tracks a <> [])
  /\ (forall root limit w w' artists errors,
         scanDirectory root limit w = (w', Returns (artists, errors)) ->
         Forall (fun artist =>
                   albums artist <> []
                   /\ Forall (fun album => tracks album <> []) (albums artist))
                artists).
Proof.
  split.
  - intros albumPath albumName w w' a errors Hrun.
    rewrite processAlbum_run in Hrun. injection Hrun as _ Hr.
    apply (albumResult_has_track join extname toLowerCase fs parseFile latency
             albumPath albumName).
    now rewrite Hr.
  - intros root limit w w' artists errors Hrun.
    apply scanDirectory_returns in Hrun.
    destruct Hrun as (artistDirs & _ & Ha & _). simpl in Ha. rewrite Ha.
    apply artistsOf_have_albums.
Qed.

(** What the code does where C2 expects a recorded error: a directory
    to process whose listing fails makes [scanDirectory] throw. *)
Lemma scanDirectory_artist_listing_failure
      (root : string) (limit : Z) (artistDirs : list Dirent)
      (artistDir : Dirent) (msg : string) (w : World) :
  readdir fs root = Fulfilled artistDirs ->
  In artistDir (dirsToProcess artistDirs limit) ->
  isDirectory artistDir = true ->
  readdir fs (join root (name artistDir)) = Rejected msg ->
  exists w' msg', scanDirectory root limit w = (w', Throws msg').
Proof.
  intros Hls Hin Hd Hr. unfold scanDirectory.
  unfold bind at 1, console_log at 1. unfold bind at 1, await at 1.
  rewrite Hls. now apply artistLoop_throws with (artistDir := artistDir) (msg := msg).
Qed.

End ScanClaims.

Section OrderClaim.

Variable join : string -> string -> string.
Variable extname : string -> string.
Variable toLowerCase : string -> string.
Variable fs : FsPromises.
Variable parseFile : string -> Settled Common.

(** C10.  Whatever the completion order of the probes, the artists of
    the result, their albums and the tracks of the albums come in
    listing order: they are the artists, albums and tracks read off the
    directory listings by [artistsInListingOrder], in which no latency
    enters.  Under any other completion order the scan returns as well,
    with the same artists, albums and tracks in the same order. *)
Theorem scanDirectory_listing_order
        (latency : string -> nat) (root : string) (limit : Z)
        (artistDirs : list Dirent) (w w' : World)
        (artists : list Artist) (errors : list ProcessingError) :
  readdir fs root = Fulfilled artistDirs ->
  scanDirectory join extname toLowerCase fs parseFile latency root limit w
  = (w', Returns (artists, errors)) ->
  map artistOutline artists
  = artistsInListingOrder join extname toLowerCase fs parseFile root
                          (dirsToProcess artistDirs limit)
  /\ forall latency' : string -> nat,
      exists w'' artists' errors',
        scanDirectory join extname toLowerCase fs parseFile latency' root limit w
        = (w'', Returns (artists', errors'))
        /\ map artistOutline artists' = map artistOutline artists.
Proof.
  intros Hls Hrun.
  assert (Hout : forall lat v v' r,
             scanDirectory join extname toLowerCase fs parseFile lat root limit v
             = (v', Returns r) ->
             map artistOutline (fst r)
             = artistsInListingOrder join extname toLowerCase fs parseFile root
                                     (dirsToProcess artistDirs limit)).
  { intros lat v v' r H. apply scanDirectory_returns in H.
    destruct H as (artistDirs' & Hls' & Ha & _).
    rewrite Hls in Hls'. injection Hls' as <-. rewrite Ha.
    apply artistsOf_outline. }
  pose proof (Hout _ _ _ _ Hrun) as H1. simpl in H1. split; [exact H1|].
  intros latency'.
  apply scanDirectory_listings in Hrun.
  destruct Hrun as (artistDirs' & Hls' & Hall).
  rewrite Hls in Hls'. injection Hls' as <-.
  destruct (scanDirectory_total join extname toLowerCase fs parseFile latency'
              root limit artistDirs w Hls Hall) as (w'' & [artists' errors'] & Hrun').
  exists w'', artists', errors'. split; [exact Hrun'|].
  rewrite H1. exact (Hout _ _ _ _ Hrun').
Qed.

End OrderClaim.

(** C1 as stated fails: with a stray file before the artist directories
    and a limit of 2, below the three artist directories of the root, only
    the first artist directory is considered, not the first two. *)
Lemma limit_counts_every_entry :
  ~ (forall (join : string -> string -> string) (extname toLowerCase : string -> string)
            (fs : FsPromises) (parseFile : string -> Settled Common)
            (latency : string -> nat) (root : string) (M : Z)
            (artistDirs : list Dirent) (w w' : World) r,
        readdir fs root = Fulfilled artistDirs ->
        (0 < M < Z.of_nat (length (filter isDirectory artistDirs)))%Z ->
        scanDirectory join extname toLowerCase fs parseFile latency root M w
        = (w', Returns r) ->
        console w'
        = console w
          ++ (Stdout, ("Scanning directory: " ++ root)%string)
             :: map (fun artistDir =>
                       (Stdout, ("Processing artist: " ++ name artistDir)%string))
                    (firstn (Z.to_nat M) (filter isDirectory artistDirs))).
Proof.
  intros H.
  assert (E : exists w' r,
             Library.scan1 "/music" 2%Z emptyWorld = (w', Returns r)
             /\ console w' = [(Stdout, "Scanning directory: /music");
                              (Stdout, "Processing artist: ArtistA")]).
  { eexists _, _. split; vm_compute; reflexivity. }
  destruct E as (w' & r & Hrun & Hc).
  specialize (H Posix.join Posix.extname Posix.toLowerCase
                (Library.fsOf Library.listings1) (Library.probeOf Library.probes1)
                Library.noLatency "/music" 2%Z _ emptyWorld w' r eq_refl).
  specialize (H ltac:(vm_compute; split; reflexivity) Hrun).
  rewrite Hc in H. vm_compute in H. discriminate H.
Qed.

Lemma scanDirectory_limit_witness :
  Forall (fun artistDir =>
            exists albumDirs,
              readdir (Library.fsOf Library.listings1)
                      (Posix.join "/music" (name artistDir))
              = Fulfilled albumDirs)
         [Library.dir "ArtistA"]
  /\ exists w' artists errors,
      Library.scan1 "/music" 2%Z emptyWorld = (w', Returns (artists, errors))
      /\ console w' = [(Stdout, "Scanning directory: /music");
                       (Stdout, "Processing artist: ArtistA")]
      /\ map artistOutline artists
         = [("ArtistA", [("Album1", [{| title := "Song1" |}])])]
      /\ length artists <= 2.
Proof.
  assert (Hall : Forall (fun artistDir =>
                           exists albumDirs,
                             readdir (Library.fsOf Library.listings1)
                                     (Posix.join "/music" (name artistDir))
                             = Fulfilled albumDirs)
                        [Library.dir "ArtistA"]).
  { constructor; [|constructor]. eexists. reflexivity. }
  split; [exact Hall|].
  destruct (scanDirectory_limit
              Posix.join Posix.extname Posix.toLowerCase
              (Library.fsOf Library.listings1) (Library.probeOf Library.probes1)
              Library.noLatency "/music" 2%Z _ emptyWorld eq_refl Hall)
    as (w' & artists & errors & Hrun & Hc & Hout & Hlen & _).
  exists w', artists, errors.
  split; [exact Hrun|]. split; [exact Hc|]. split.
  - rewrite Hout. vm_compute. reflexivity.
  - apply Hlen. reflexivity.
Defined.

Lemma emitted_albums_and_artists_nonempty_witness :
  exists w' artists errors,
    Library.scan1 "/music" 0%Z emptyWorld = (w', Returns (artists, errors))
    /\ length artists = 2
    /\ Forall (fun artist =>
                 albums artist <> []
                 /\ Forall (fun album => tracks album <> []) (albums artist))
              artists.
Proof.
  assert (E : Library.scan1 "/music" 0%Z emptyWorld = Library.scan1_result)
    by (vm_compute; reflexivity).
  unfold Library.scan1_result in E.
  eexists _, _, _. split; [exact E|]. split; [reflexivity|].
  exact (proj2 (emitted_albums_and_artists_nonempty
                  Posix.join Posix.extname Posix.toLowerCase
                  (Library.fsOf Library.listings1) (Library.probeOf Library.probes1)
                  Library.noLatency)
               "/music" 0%Z emptyWorld _ _ _ E).
Defined.

Lemma scanDirectory_listing_order_witness :
  exists w' artists errors,
    Library.scan3 "/lib" 0%Z emptyWorld = (w', Returns (artists, errors))
    /\ map file errors = ["/lib/X/Big/t10.mp3"; "/lib/X/Big/t3.mp3";
                          "/lib/X/Big/t17.mp3"; "/lib/X/Big/t24.mp3"]
    /\ map artistOutline artists
       = [("X", [("Big", map (fun n => {| title := "Track " ++ showNat n |})
                             [1; 2; 4; 5; 6; 7; 8; 9; 11; 12; 13; 14; 15; 16;
                              18; 19; 20; 21; 22; 23; 25])])]
    /\ exists w'' artists' errors',
        scanDirectory Posix.join Posix.extname Posix.toLowerCase
                      (Library.fsOf Library.listings3) (Library.probeOf Library.probes3)
                      Library.noLatency "/lib" 0%Z emptyWorld
        = (w'', Returns (artists', errors'))
        /\ map artistOutline artists' = map artistOutline artists.
Proof.
  assert (E : Library.scan3 "/lib" 0%Z emptyWorld = Library.scan3_result)
    by (vm_compute; reflexivity).
  unfold Library.scan3_result in E.
  eexists _, _, _. split; [exact E|]. split; [reflexivity|].
  destruct (scanDirectory_listing_order
              Posix.join Posix.extname Posix.toLowerCase
              (Library.fsOf Library.listings3) (Library.probeOf Library.probes3)
              Library.latency3 "/lib" 0%Z _ emptyWorld _ _ _ eq_refl E)
    as [Hout Hany].
  split.
  - etransitivity; [exact Hout|]. vm_compute. reflexivity.
  - exact (Hany Library.noLatency).
Defined.

(** C2: the code on a library in which the directory of ArtistB cannot be
    listed while ArtistA before it and ArtistC after it are in order.  The
    scan throws at ArtistB: no error is recorded, ArtistC is never
    visited, and [main] writes no file and exits with code 1. *)
Theorem artist_listing_failure_aborts_scan :
  Library.scan2 "/music" 0%Z emptyWorld
  = ({| console := [(Stdout, "Scanning directory: /music");
                    (Stdout, "Processing artist: ArtistA");
                    (Stdout, "Processing artist: ArtistB")];
        files := [] |},
     Throws "EACCES: permission denied, scandir '/music/ArtistB'")
  /\ exists w',
      Library.main2 Library.argv1 emptyWorld = (w', Exits 1)
      /\ files w' = [].
Proof.
  split; [vm_compute; reflexivity|].
  eexists. split; [vm_compute; reflexivity | reflexivity].
Qed.

(** ** main *)

Section MainClaims.

Variable join : string -> string -> string.
Variable extname : string -> string.
Variable dirname : string -> string.
Variable toLowerCase : string -> string.
Variable fs : FsPromises.
Variable parseFile : string -> Settled Common.
Variable latency : string -> nat.

Abbreviation artistLoop := (artistLoop join extname toLowerCase fs parseFile latency).
Abbreviation scanDirectory := (scanDirectory join extname toLowerCase fs parseFile latency).
Abbreviation resolveOutputFile := (resolveOutputFile join extname fs).
(** The scan only appends to the console; what it appends and how it
    ends do not depend on the world it starts in. *)
Lemma artistLoop_frame (directory : string) (toProcess : list Dirent) acc (w : World) :
  artistLoop directory toProcess acc w
  = ({| console := console w
                   ++ console (fst (artistLoop directory toProcess acc emptyWorld));
        files := files w |},
     snd (artistLoop directory toProcess acc emptyWorld)).
Proof.
  revert acc w. induction toProcess as [|d rest IH]; intros acc w.
  - simpl. unfold ret. simpl. rewrite app_nil_r. now destruct w.
  - rewrite !artistLoop_cons.
    destruct (isDirectory d); [|apply IH].
    destruct (readdir fs (join directory (name d))) as [albumDirs|msg]; cbv zeta.
    + rewrite IH.
      rewrite (IH _ {| console := console emptyWorld ++ _; files := files emptyWorld |}).
      simpl. now rewrite <- app_assoc.
    + reflexivity.
Qed.

Lemma scanDirectory_frame (directory : string) (limit : Z) :
  exists lines o,
    forall w, scanDirectory directory limit w
              = ({| console := console w ++ lines; files := files w |}, o).
Proof.
  destruct (readdir fs directory) as [artistDirs|msg] eqn:Hr.
  - eexists (_ :: _), _. intros w. unfold scanDirectory.
    unfold bind at 1, console_log at 1. unfold bind at 1, await at 1.
    rewrite Hr, artistLoop_frame. simpl. rewrite <- app_assoc. reflexivity.
  - exists [(Stdout, ("Scanning directory: " ++ directory)%string)], (Throws msg).
    intros w. unfold scanDirectory.
    unfold bind at 1, console_log at 1. unfold bind at 1, await at 1.
    now rewrite Hr.
Qed.

(** C9.  The output file is the path joined with [music_metadata.json]
    when the path is an existing directory or a missing path without an
    extension, and the path itself when it is an existing file or a
    missing path with an extension. *)
Theorem resolveOutputFile_cases (outputPath : string) (w : World) :
  (stat fs outputPath = Fulfilled KDirectory ->
   resolveOutputFile outputPath w
   = (w, Returns (join outputPath "music_metadata.json")))
  /\ (forall msg, stat fs outputPath = Rejected msg -> extname outputPath = "" ->
      resolveOutputFile outputPath w
      = (w, Returns (join outputPath "music_metadata.json")))
  /\ (stat fs outputPath = Fulfilled KFile ->
      resolveOutputFile outputPath w = (w, Returns outputPath))
  /\ (forall msg, stat fs outputPath = Rejected msg -> extname outputPath <> "" ->
      resolveOutputFile outputPath w = (w, Returns outputPath)).
Proof.
  unfold resolveOutputFile, try_catch, bind, await, ret.
  repeat split.
  - now intros ->.
  - intros msg -> ->. reflexivity.
  - now intros ->.
  - intros msg -> Hext. now destruct (string_dec (extname outputPath) "").
Qed.

Lemma resolveOutputFile_run (outputPath : string) :
  exists outputFile, forall w, resolveOutputFile outputPath w = (w, Returns outputFile).
Proof.
  unfold resolveOutputFile, try_catch, bind, await, ret.
  destruct (stat fs outputPath) as [[| |]|msg]; eauto.
  destruct (string_dec (extname outputPath) ""); eauto.
Qed.

(** C6, as amended.  With the configuration in order (a music directory
    is given and accessible), a scan that is interrupted by an exception,
    whatever its origin, makes [main] log a fatal error on stderr and
    exit with code 1 without writing any file: what the scan had
    accumulated is not saved. *)
Theorem main_interrupted_scan
        (scan : string -> Z -> M (list Artist * list ProcessingError))
        (argv : Argv) (musicDirectory msg : string) (w : World) :
  music_dir argv = Some musicDirectory ->
  musicDirectory <> "" ->
  access fs musicDirectory = Fulfilled tt ->
  (forall w0, exists w1,
      scan musicDirectory (limit_ argv) w0 = (w1, Throws msg)
      /\ files w1 = files w0) ->
  exists w' lines msg',
    mainWith join extname dirname fs scan argv w = (w', Exits 1)
    /\ files w' = files w
    /\ console w' = lines ++ [(Stderr, ("Fatal error: " ++ msg')%string)].
Proof.
  intros Hmd Hne Hacc Hscan.
  destruct (resolveOutputFile_run (output argv)) as (outputFile & Hres).
  unfold mainWith. rewrite Hmd.
  destruct (string_dec musicDirectory "") as [|_]; [contradiction|].
  unfold try_catch at 1. unfold bind at 1. unfold try_catch at 1, await at 1.
  rewrite Hacc. unfold bind at 1. rewrite Hres.
  unfold bind at 1, console_log at 1. unfold bind at 1, console_log at 1.
  unfold bind at 1, await at 1.
  destruct (mkdir fs (dirname outputFile)) as [[]|mmsg].
  - unfold bind at 1.
    match goal with
    | |- context [scan musicDirectory (limit_ argv) ?W] =>
        destruct (Hscan W) as (w1 & E & Hf); rewrite E
    end.
    unfold bind, console_error, process_exit. simpl.
    eexists _, _, msg. split; [reflexivity|]. split; [exact Hf | reflexivity].
  - unfold bind, console_error, process_exit. simpl.
    eexists _, _, mmsg. split; [reflexivity|]. split; reflexivity.
Qed.

(** The scan of the program is such a scan when it throws. *)
Lemma scanDirectory_throws_everywhere
      (directory msg : string) (limit : Z) (w0 w1 : World) :
  scanDirectory directory limit w0 = (w1, Throws msg) ->
  forall w, exists w',
    scanDirectory directory limit w = (w', Throws msg) /\ files w' = files w.
Proof.
  intros H w. destruct (scanDirectory_frame directory limit) as (lines & o & Hf).
  rewrite Hf in H. injection H as _ ->.
  eexists. split; [apply Hf | reflexivity].
Qed.

End MainClaims.

Lemma resolveOutputFile_cases_witness :
  resolveOutputFile Posix.join Posix.extname (Library.kindsOf Library.kinds1)
                    "/out" emptyWorld
  = (emptyWorld, Returns "/out/music_metadata.json")
  /\ resolveOutputFile Posix.join Posix.extname (Library.kindsOf Library.kinds1)
                       "/new/place" emptyWorld
     = (emptyWorld, Returns "/new/place/music_metadata.json")
  /\ resolveOutputFile Posix.join Posix.extname (Library.kindsOf Library.kinds1)
                       "/out/library.json" emptyWorld
     = (emptyWorld, Returns "/out/library.json")
  /\ resolveOutputFile Posix.join Posix.extname (Library.kindsOf Library.kinds1)
                       "/new/place/x.json" emptyWorld
     = (emptyWorld, Returns "/new/place/x.json").
Proof.
  split; [|split; [|split]].
  - apply (proj1 (resolveOutputFile_cases Posix.join Posix.extname
                    (Library.kindsOf Library.kinds1) "/out" emptyWorld)).
    reflexivity.
  - apply (proj1 (proj2 (resolveOutputFile_cases Posix.join Posix.extname
                           (Library.kindsOf Library.kinds1) "/new/place" emptyWorld))
                 "ENOENT: no such file or directory, stat '/new/place'");
      reflexivity.
  - apply (proj1 (proj2 (proj2 (resolveOutputFile_cases Posix.join Posix.extname
                    (Library.kindsOf Library.kinds1) "/out/library.json" emptyWorld)))).
    reflexivity.
  - apply (proj2 (proj2 (proj2 (resolveOutputFile_cases Posix.join Posix.extname
                    (Library.kindsOf Library.kinds1) "/new/place/x.json" emptyWorld)))
                 "ENOENT: no such file or directory, stat '/new/place/x.json'");
      [reflexivity | discriminate].
Defined.

(** C6 as stated fails.  In the library whose ArtistB cannot be listed the
    configuration is in order and the scan is interrupted after ArtistA:
    the scan cut after its first entry returns ArtistA and one error, which
    is what had been accumulated.  [main] does not exit with code 0, and it
    writes no file at all. *)
Lemma interrupted_scan_is_not_saved :
  ~ (forall (join : string -> string -> string) (extname dirname toLowerCase : string -> string)
            (fs : FsPromises) (parseFile : string -> Settled Common)
            (latency : string -> nat) (argv : Argv) (musicDirectory msg : string)
            (w w1 : World),
        music_dir argv = Some musicDirectory ->
        musicDirectory <> "" ->
        access fs musicDirectory = Fulfilled tt ->
        (forall p, mkdir fs p = Fulfilled tt) ->
        scanDirectory join extname toLowerCase fs parseFile latency
                      musicDirectory (limit_ argv) w = (w1, Throws msg) ->
        exists w', main join extname dirname toLowerCase fs parseFile latency argv w
                   = (w', Exits 0))
  /\ (exists w1 artist error,
         Library.scan2 "/music" 1%Z emptyWorld = (w1, Returns ([artist], [error]))
         /\ artistName artist = "ArtistA"
         /\ file error = "/music/ArtistA/Album1/b.flac")
  /\ (exists w',
         Library.main2 Library.argv1 emptyWorld = (w', Exits 1) /\ files w' = []).
Proof.
  split; [|split].
  - intros H.
    assert (E : Library.scan2 "/music" 0%Z emptyWorld = Library.scan2_result)
      by (vm_compute; reflexivity).
    unfold Library.scan2_result in E.
    destruct (H Posix.join Posix.extname Posix.dirname Posix.toLowerCase
                (Library.fsOf Library.listings2) (Library.probeOf Library.probes1)
                Library.noLatency Library.argv1 "/music" _ emptyWorld _
                eq_refl ltac:(discriminate) eq_refl (fun _ => eq_refl) E)
      as (w' & Hm).
    assert (E' : Library.main2 Library.argv1 emptyWorld = Library.main2_result)
      by (vm_compute; reflexivity).
    unfold Library.main2_result in E'. rewrite E' in Hm. discriminate Hm.
  - assert (E : Library.scan2 "/music" 1%Z emptyWorld = Library.scan2_limit1_result)
      by (vm_compute; reflexivity).
    unfold Library.scan2_limit1_result in E.
    eexists _, _, _. split; [exact E|]. split; reflexivity.
  - assert (E' : Library.main2 Library.argv1 emptyWorld = Library.main2_result)
      by (vm_compute; reflexivity).
    unfold Library.main2_result in E'.
    eexists. split; [exact E'|reflexivity].
Qed.

Lemma main_interrupted_scan_witness :
  exists w',
    Library.main2 Library.argv1 emptyWorld = (w', Exits 1)
    /\ files w' = []
    /\ exists lines,
        console w'
        = lines ++ [(Stderr, "Fatal error: EACCES: permission denied, scandir '/music/ArtistB'")].
Proof.
  assert (E : Library.scan2 "/music" 0%Z emptyWorld = Library.scan2_result)
    by (vm_compute; reflexivity).
  unfold Library.scan2_result in E.
  destruct (main_interrupted_scan
              Posix.join Posix.extname Posix.dirname (Library.fsOf Library.listings2)
              (Library.scan2) Library.argv1 "/music" _ emptyWorld
              eq_refl ltac:(discriminate) eq_refl
              (scanDirectory_throws_everywhere
                 Posix.join Posix.extname Posix.toLowerCase
                 (Library.fsOf Library.listings2) (Library.probeOf Library.probes1)
                 Library.noLatency "/music" _ 0%Z emptyWorld _ E))
    as (w' & lines & msg' & Hm & Hf & Hc).
  assert (E' : Library.main2 Library.argv1 emptyWorld = Library.main2_result)
    by (vm_compute; reflexivity).
  unfold Library.main2_result in E'.
  unfold main in E'. rewrite Hm in E'. injection E' as ->.
  eexists. split; [exact Hm|]. split; [reflexivity|].
  eexists (_ :: _ :: _ :: _ :: _ :: nil). reflexivity.
Defined.

(** * Further properties *)

(** ** Batches *)

(** The shape of the batches of the loop of line 87. *)
Lemma batchesFrom_shape (l : list Dirent) (fuel i : nat) :
  length l - i <= fuel ->
  Forall (fun b => 1 <= length b <= batchSize) (batchesFrom fuel l i)
  /\ Forall (fun b => length b = batchSize) (removelast (batchesFrom fuel l i))
  /\ length l - i <= batchSize * length (batchesFrom fuel l i)
  /\ batchSize * length (batchesFrom fuel l i) < length l - i + batchSize.
Proof.
  unfold batchSize.
  revert i. induction fuel as [|fuel IH]; intros i Hf.
  - simpl. repeat split; auto; lia.
  - cbn [batchesFrom]. destruct (Nat.ltb_spec i (length l)) as [Hi|Hi].
    + rewrite slice_batch by assumption.
      destruct (IH (i + batchSize)) as (H1 & H2 & H3 & H4);
        [unfold batchSize; lia|].
      unfold batchSize in *.
      assert (Hlen : length (firstn 10 (skipn i l)) = Nat.min 10 (length l - i)).
      { now rewrite length_firstn, length_skipn. }
      repeat split.
      * constructor; [rewrite Hlen; lia | exact H1].
      * destruct (batchesFrom fuel l (i + 10)) as [|b bs] eqn:Eb.
        -- constructor.
        -- change (removelast (firstn 10 (skipn i l) :: b :: bs))
             with (firstn 10 (skipn i l) :: removelast (b :: bs)).
           constructor; [|exact H2].
           rewrite Hlen. simpl length in H4. lia.
      * simpl length. lia.
      * simpl length. lia.
    + simpl. repeat split; auto; lia.
Qed.

Section AlbumOrder.

Variable join : string -> string -> string.
Variable extname : string -> string.
Variable toLowerCase : string -> string.
Variable fs : FsPromises.
Variable parseFile : string -> Settled Common.
Variable latency : string -> nat.

Abbreviation isMusicFile := (isMusicFile extname toLowerCase).
Abbreviation settle := (settle join parseFile).
Abbreviation trackOf := (trackOf join parseFile).
Abbreviation errorsOf := (errorsOf join parseFile).
Abbreviation genresOf := (genresOf join parseFile).
Abbreviation completionOrder := (completionOrder join latency).
Abbreviation processBatch := (processBatch join parseFile latency).
Abbreviation batchLoop := (fun fuel => batchLoop join parseFile latency fuel).
Abbreviation processAlbum := (processAlbum join extname toLowerCase fs parseFile latency).
Abbreviation albumResult := (albumResult join extname toLowerCase fs parseFile latency).

(** Files are probed in consecutive batches of ten: the batches of the
    loop of [processAlbum] are, in order, the pieces of the list of
    supported files; none is empty or has more than [batchSize] files, all
    but the last have exactly [batchSize], and there are as many as
    needed and no more. *)
Theorem batches_are_bounded (albumPath : string) (musicFiles : list Dirent) st :
  let batches := batchesFrom (length musicFiles) musicFiles 0 in
  batchLoop (length musicFiles) albumPath musicFiles 0 st
  = fold_left (fun st batch => processBatch albumPath batch st) batches st
  /\ concat batches = musicFiles
  /\ Forall (fun batch => 1 <= length batch <= batchSize) batches
  /\ Forall (fun batch => length batch = batchSize) (removelast batches)
  /\ length musicFiles <= batchSize * length batches < length musicFiles + batchSize.
Proof.
  intros batches.
  destruct (batchesFrom_shape musicFiles (length musicFiles) 0) as (H1 & H2 & H3 & H4);
    [lia|].
  rewrite Nat.sub_0_r in H3, H4.
  split; [apply batchLoop_fold|].
  split; [unfold batches; now rewrite concat_batchesFrom by lia|].
  repeat split; assumption.
Qed.

(** The shared objects after the batches: the callbacks have run batch
    after batch, in completion order within each batch. *)
Lemma fold_batches_shared (p : string) (bs : list (list Dirent)) st :
  snd (fold_left (fun st batch => processBatch p batch st) bs st)
  = fold_left (settle p) (flat_map (completionOrder p) bs) (snd st).
Proof.
  revert st. induction bs as [|b bs IH]; intros st; simpl; [reflexivity|].
  rewrite IH, fold_left_app. reflexivity.
Qed.

Lemma errorsOf_flat_map (p : string) (f : list Dirent -> list Dirent)
      (bs : list (list Dirent)) :
  errorsOf p (flat_map f bs) = concat (map (fun b => errorsOf p (f b)) bs).
Proof.
  induction bs as [|b bs IH]; simpl; [reflexivity|].
  now rewrite errorsOf_app, IH.
Qed.

(** The errors and the genres of the result, exactly. *)
Lemma albumResult_exact (albumPath albumName : string) (trackFiles : list Dirent) :
  readdir fs albumPath = Fulfilled trackFiles ->
  let musicFiles := filter isMusicFile trackFiles in
  let settled :=
    flat_map (completionOrder albumPath)
             (batchesFrom (length musicFiles) musicFiles 0) in
  snd (albumResult albumPath albumName) = errorsOf albumPath settled
  /\ forall a, fst (albumResult albumPath albumName) = Some a ->
               genres a = fold_left Set_add (genresOf albumPath settled) []
               /\ tracks a = nonNull (map (trackOf albumPath) musicFiles).
Proof.
  intros Hls musicFiles settled. unfold albumResult. rewrite Hls. fold musicFiles.
  destruct (Nat.eqb_spec (length musicFiles) 0) as [Hz|Hz].
  - apply length_zero_iff_nil in Hz. subst settled. rewrite Hz. simpl.
    split; [reflexivity | discriminate].
  - rewrite batchLoop_fold.
    set (st0 := (@nil Track, {| allGenres := []; errors_ := [] |})).
    pose proof (fold_batches_shared albumPath
                  (batchesFrom (length musicFiles) musicFiles 0) st0) as Hs.
    pose proof (fold_batches_tracks join parseFile latency albumPath
                  (batchesFrom (length musicFiles) musicFiles 0) st0) as Ht.
    rewrite concat_batchesFrom in Ht by lia. simpl in Ht, Hs.
    fold settled in Hs.
    set (st := fold_left _ _ st0) in *. simpl. split.
    + rewrite Hs, settle_errors. reflexivity.
    + intros a Ha. destruct (0 <? length (fst st))%nat; [|discriminate].
      injection Ha as <-. simpl. split; [|exact Ht].
      rewrite Hs, settle_genres. reflexivity.
Qed.

(** The errors of an album come batch after batch: the errors of the
    files of one batch, in some order, then those of the next batch. *)
Theorem processAlbum_errors_by_batch
        (albumPath albumName : string) (trackFiles : list Dirent) (w : World) :
  readdir fs albumPath = Fulfilled trackFiles ->
  let musicFiles := filter isMusicFile trackFiles in
  exists album errors groups,
    processAlbum albumPath albumName w = (w, Returns (album, errors))
    /\ errors = concat groups
    /\ Forall2 (fun batch group => Permutation group (errorsOf albumPath batch))
               (batchesFrom (length musicFiles) musicFiles 0) groups.
Proof.
  intros Hls musicFiles.
  destruct (albumResult_exact albumPath albumName trackFiles Hls) as [He _].
  cbv zeta in He. fold musicFiles in He.
  rewrite processAlbum_run.
  destruct (albumResult albumPath albumName) as [album errors]. simpl in He.
  exists album, errors,
    (map (fun b => errorsOf albumPath (completionOrder albumPath b))
         (batchesFrom (length musicFiles) musicFiles 0)).
  split; [reflexivity|]. split; [rewrite He; apply errorsOf_flat_map|].
  clear He.
  induction (batchesFrom (length musicFiles) musicFiles 0) as [|b bs IH]; simpl.
  - constructor.
  - constructor; [|exact IH].
    apply Permutation_flat_map, completionOrder_perm.
Qed.

(** Probes that complete in submission order leave a batch as it is. *)
Lemma completionOrder_in_order (p : string) (batch : list Dirent) :
  StronglySorted (fun f g => latency (join p (name f)) <= latency (join p (name g)))
                 batch ->
  completionOrder p batch = batch.
Proof.
  induction 1 as [|f batch Hs IH Hf]; simpl; [reflexivity|].
  rewrite IH. destruct batch as [|g batch]; [reflexivity|]. simpl.
  inversion Hf as [|? ? Hfg _]; subst.
  now destruct (Nat.leb_spec (latency (join p (name f))) (latency (join p (name g))));
    [|lia].
Qed.

Lemma StronglySorted_app_parts {A} (R : A -> A -> Prop) (l1 l2 : list A) :
  StronglySorted R (l1 ++ l2) -> StronglySorted R l1 /\ StronglySorted R l2.
Proof.
  induction l1 as [|a l1 IH]; simpl; intros H.
  - split; [constructor | exact H].
  - apply StronglySorted_inv in H. destruct H as [Hs Hf].
    destruct (IH Hs) as [H1 H2]. split; [|exact H2].
    constructor; [exact H1|]. apply Forall_app in Hf. tauto.
Qed.

Lemma completionOrder_batches_in_order (p : string) (bs : list (list Dirent)) :
  StronglySorted (fun f g => latency (join p (name f)) <= latency (join p (name g)))
                 (concat bs) ->
  flat_map (completionOrder p) bs = concat bs.
Proof.
  induction bs as [|b bs IH]; simpl; intros H; [reflexivity|].
  apply StronglySorted_app_parts in H. destruct H as [Hb Hbs].
  now rewrite IH, completionOrder_in_order.
Qed.

(** When the probes of an album complete in the order of the listing
    (the latencies do not decrease along the supported files), the errors
    are those of the failed files in listing order, and the genres come in
    the order in which the files first report them. *)
Theorem processAlbum_in_order_completion
        (albumPath albumName : string) (trackFiles : list Dirent) (w : World) :
  readdir fs albumPath = Fulfilled trackFiles ->
  let musicFiles := filter isMusicFile trackFiles in
  StronglySorted (fun f g => latency (join albumPath (name f))
                             <= latency (join albumPath (name g)))
                 musicFiles ->
  exists album errors,
    processAlbum albumPath albumName w = (w, Returns (album, errors))
    /\ errors = errorsOf albumPath musicFiles
    /\ forall a, album = Some a ->
                 genres a = fold_left Set_add (genresOf albumPath musicFiles) [].
Proof.
  intros Hls musicFiles Hsorted.
  destruct (albumResult_exact albumPath albumName trackFiles Hls) as [He Hg].
  cbv zeta in He, Hg. fold musicFiles in He, Hg.
  rewrite completionOrder_batches_in_order in He, Hg
    by (rewrite concat_batchesFrom by lia; exact Hsorted).
  rewrite concat_batchesFrom in He, Hg by lia. simpl in He, Hg.
  rewrite processAlbum_run.
  destruct (albumResult albumPath albumName) as [album errors]. simpl in *.
  exists album, errors. split; [reflexivity|]. split; [exact He|].
  intros a ->. now apply Hg.
Qed.

(** [processAlbum] never throws and never ends the process, whatever the
    listing and the probes do, and it leaves the console and the files
    alone. *)
Theorem processAlbum_never_throws (albumPath albumName : string) (w : World) :
  exists album errors,
    processAlbum albumPath albumName w = (w, Returns (album, errors)).
Proof.
  rewrite processAlbum_run.
  destruct (albumResult albumPath albumName) as [album errors]. now exists album, errors.
Qed.

(** No track of a returned album has an empty title, as long as no
    directory entry of the album has an empty name. *)
Theorem processAlbum_titles_not_empty
        (albumPath albumName : string) (trackFiles : list Dirent)
        (w w' : World) (a : Album) (errors : list ProcessingError) :
  readdir fs albumPath = Fulfilled trackFiles ->
  Forall (fun trackFile => name trackFile <> "") trackFiles ->
  processAlbum albumPath albumName w = (w', Returns (Some a, errors)) ->
  Forall (fun track => title track <> "") (tracks a).
Proof.
  intros Hls Hnames Hrun. rewrite processAlbum_run in Hrun.
  injection Hrun as _ Hres.
  destruct (albumResult_exact albumPath albumName trackFiles Hls) as [_ Hg].
  cbv zeta in Hg. destruct (Hg a) as [_ Ht]; [now rewrite Hres|].
  rewrite Ht.
  assert (Hm : Forall (fun trackFile => name trackFile <> "")
                      (filter isMusicFile trackFiles)).
  { rewrite Forall_forall in *. intros f Hf. apply Hnames.
    now apply filter_In in Hf. }
  clear Hg Ht Hres.
  induction Hm as [|f l Hf _ IH]; simpl; [constructor|].
  unfold trackOf at 1.
  destruct (parseFile (join albumPath (name f))) as [common|]; [|exact IH].
  constructor; [|exact IH]. simpl. unfold or_else.
  destruct (common_title common) as [s|]; [|exact Hf].
  destruct (string_dec s ""); assumption.
Qed.

End AlbumOrder.

(** ** The scan: errors, effects, failures and the limit *)

Lemma Permutation_flat_map_pointwise {A B} (f g : A -> list B) (l : list A) :
  (forall a, In a l -> Permutation (f a) (g a)) ->
  Permutation (flat_map f l) (flat_map g l).
Proof.
  induction l as [|a l IH]; simpl; intros H; [constructor|].
  apply Permutation_app; [apply H; now left | apply IH; intros; apply H; now right].
Qed.

Section ScanOrder.

Variable join : string -> string -> string.
Variable extname : string -> string.
Variable toLowerCase : string -> string.
Variable fs : FsPromises.
Variable parseFile : string -> Settled Common.
Variable latency : string -> nat.

Abbreviation albumResult := (albumResult join extname toLowerCase fs parseFile latency).
Abbreviation albumErrorsOf := (albumErrorsOf join extname toLowerCase fs parseFile latency).
Abbreviation artistsOf := (artistsOf join extname toLowerCase fs parseFile latency).
Abbreviation scanErrorsOf := (scanErrorsOf join extname toLowerCase fs parseFile latency).
Abbreviation artistLoop := (artistLoop join extname toLowerCase fs parseFile latency).
Abbreviation scanDirectory := (scanDirectory join extname toLowerCase fs parseFile latency).
Abbreviation albumFailures := (albumFailures join extname toLowerCase fs parseFile).
Abbreviation artistFailures := (artistFailures join extname toLowerCase fs parseFile).
Abbreviation scanFailures := (scanFailures join extname toLowerCase fs parseFile).
Abbreviation allListed := (allListed join fs).

Lemma albumResult_failures (albumPath albumName : string) :
  Permutation (snd (albumResult albumPath albumName)) (albumFailures albumPath).
Proof.
  unfold albumFailures.
  destruct (readdir fs albumPath) as [trackFiles|msg] eqn:Hr.
  - destruct (albumResult_listed join extname toLowerCase fs parseFile latency
                albumPath albumName trackFiles Hr) as (gs & es & E & Hp & _).
    cbv zeta in E, Hp. now rewrite E.
  - unfold albumResult. rewrite Hr. reflexivity.
Qed.

Lemma scanErrorsOf_failures (directory : string) (toProcess : list Dirent) :
  Permutation (scanErrorsOf directory toProcess) (scanFailures directory toProcess).
Proof.
  unfold scanErrorsOf, scanFailures.
  apply Permutation_flat_map_pointwise. intros artistDir _. unfold artistFailures.
  destruct (readdir fs (join directory (name artistDir))) as [albumDirs|]; [|constructor].
  unfold albumErrorsOf. apply Permutation_flat_map_pointwise. intros albumDir _.
  apply albumResult_failures.
Qed.

(** The loop over the root entries, when it returns: the errors. *)
Lemma artistLoop_errors (directory : string) (toProcess : list Dirent) acc
      (w w' : World) r :
  artistLoop directory toProcess acc w = (w', Returns r) ->
  snd r = snd acc ++ scanErrorsOf directory toProcess.
Proof.
  revert acc w. induction toProcess as [|d rest IH]; intros acc w.
  - simpl. unfold ret. intros [= _ <-]. unfold scanErrorsOf. simpl.
    now rewrite app_nil_r.
  - rewrite artistLoop_cons. unfold scanErrorsOf in *. simpl.
    destruct (isDirectory d); [|apply IH]. simpl.
    destruct (readdir fs (join directory (name d))) as [albumDirs|msg];
      [|discriminate].
    cbv zeta. intros H. apply IH in H. simpl in H. rewrite H.
    now rewrite <- app_assoc.
Qed.

Lemma scanDirectory_result (directory : string) (limit : Z) (artistDirs : list Dirent)
      (w w' : World) r :
  readdir fs directory = Fulfilled artistDirs ->
  scanDirectory directory limit w = (w', Returns r) ->
  r = (artistsOf directory (dirsToProcess artistDirs limit),
       scanErrorsOf directory (dirsToProcess artistDirs limit)).
Proof.
  intros Hls Hrun.
  pose proof (scanDirectory_returns join extname toLowerCase fs parseFile latency
                directory limit w w' r Hrun) as (artistDirs' & Hls' & Ha & _).
  rewrite Hls in Hls'. injection Hls' as <-.
  unfold scanDirectory in Hrun. unfold bind at 1, console_log at 1 in Hrun.
  unfold bind at 1, await at 1 in Hrun. rewrite Hls in Hrun.
  apply artistLoop_errors in Hrun. simpl in Ha, Hrun.
  destruct r as [artists errors]. simpl in *. now subst.
Qed.

(** Every failure below the directories that are processed is reported
    exactly once, whether or not its album and its artist make it into
    the result: the failed listing of an album directory, and the failed
    probe of a supported file of an album directory that can be listed.
    Nothing else is reported. *)
Theorem scanDirectory_errors_are_the_failures
        (root : string) (limit : Z) (artistDirs : list Dirent)
        (w w' : World) (artists : list Artist) (errors : list ProcessingError) :
  readdir fs root = Fulfilled artistDirs ->
  scanDirectory root limit w = (w', Returns (artists, errors)) ->
  Permutation errors (scanFailures root (dirsToProcess artistDirs limit)).
Proof.
  intros Hls Hrun.
  apply (scanDirectory_result root limit artistDirs w w' _ Hls) in Hrun.
  injection Hrun as _ ->. apply scanErrorsOf_failures.
Qed.

(** What a scan does to the world: it appends lines to the console,
    starting with the "Scanning directory" line, writes no file and never
    ends the process; what it appends and how it ends do not depend on the
    world it starts in. *)
Theorem scanDirectory_effects (directory : string) (limit : Z) :
  exists lines o,
    (forall exitCode, o <> Exits exitCode)
    /\ forall w,
        scanDirectory directory limit w
        = ({| console := console w
                         ++ (Stdout, ("Scanning directory: " ++ directory)%string) :: lines;
              files := files w |}, o).
Proof.
  destruct (readdir fs directory) as [artistDirs|msg] eqn:Hr.
  - exists (console (fst (artistLoop directory (dirsToProcess artistDirs limit)
                                      ([], []) emptyWorld))),
           (snd (artistLoop directory (dirsToProcess artistDirs limit)
                            ([], []) emptyWorld)).
    split.
    + intros exitCode H.
      apply (artistLoop_no_exit join extname toLowerCase fs parseFile latency
               directory (dirsToProcess artistDirs limit) ([], []) emptyWorld
               (fst (artistLoop directory (dirsToProcess artistDirs limit) ([], [])
                                emptyWorld)) exitCode).
      rewrite <- H. now destruct (artistLoop _ _ _ _).
    + intros w. unfold scanDirectory.
      unfold bind at 1, console_log at 1. unfold bind at 1, await at 1.
      rewrite Hr.
      rewrite (artistLoop_frame join extname toLowerCase fs parseFile latency).
      simpl. rewrite <- app_assoc. reflexivity.
  - exists [], (Throws msg). split; [discriminate|].
    intros w. unfold scanDirectory.
    unfold bind at 1, console_log at 1. unfold bind at 1, await at 1.
    now rewrite Hr.
Qed.

(** A scan returns exactly when the root can be listed and so can every
    directory among the entries to process; directories cut off by the
    limit and album directories play no part. *)
Theorem scanDirectory_returns_iff (root : string) (limit : Z) (w : World) :
  (exists w' r, scanDirectory root limit w = (w', Returns r))
  <-> exists artistDirs,
        readdir fs root = Fulfilled artistDirs
        /\ allListed root (dirsToProcess artistDirs limit).
Proof.
  split.
  - intros (w' & r & Hrun).
    now apply scanDirectory_listings in Hrun.
  - intros (artistDirs & Hls & Hall).
    now apply (scanDirectory_total join extname toLowerCase fs parseFile latency
                 root limit artistDirs).
Qed.

(** The loop over the root entries, when it throws. *)
Lemma artistLoop_first_failure (directory : string) (toProcess : list Dirent) acc
      (w w' : World) (msg : string) :
  artistLoop directory toProcess acc w = (w', Throws msg) ->
  exists before artistDir after,
    toProcess = before ++ artistDir :: after
    /\ isDirectory artistDir = true
    /\ readdir fs (join directory (name artistDir)) = Rejected msg
    /\ allListed directory before
    /\ console w' = console w ++ processingLines (before ++ [artistDir]).
Proof.
  revert acc w. induction toProcess as [|d rest IH]; intros acc w.
  - simpl. unfold ret. discriminate.
  - rewrite artistLoop_cons.
    destruct (isDirectory d) eqn:Hd.
    + destruct (readdir fs (join directory (name d))) as [albumDirs|m] eqn:Hr;
        cbv zeta.
      * intros H. apply IH in H.
        destruct H as (before & artistDir & after & -> & Ha & Hf & Hall & Hc).
        exists (d :: before), artistDir, after. repeat split; auto.
        -- unfold allListed in *. simpl. rewrite Hd.
           constructor; [now exists albumDirs | exact Hall].
        -- rewrite Hc. unfold processingLines. simpl. rewrite Hd. simpl.
           now rewrite <- app_assoc.
      * intros [= <- <-]. exists [], d, rest. repeat split; auto.
        -- constructor.
        -- unfold processingLines. simpl. now rewrite Hd.
    + intros H. apply IH in H.
      destruct H as (before & artistDir & after & -> & Ha & Hf & Hall & Hc).
      exists (d :: before), artistDir, after. repeat split; auto.
      * unfold allListed in *. simpl. now rewrite Hd.
      * rewrite Hc. unfold processingLines. simpl. now rewrite Hd.
Qed.

(** A scan that throws throws the message of the first listing that
    fails: that of the root, or that of the first directory to process
    that cannot be listed; the console shows the artists up to and
    including that one. *)
Theorem scanDirectory_throws_first_failure
        (root : string) (limit : Z) (w w' : World) (msg : string) :
  scanDirectory root limit w = (w', Throws msg) ->
  (readdir fs root = Rejected msg
   /\ console w' = console w ++ [(Stdout, ("Scanning directory: " ++ root)%string)])
  \/ exists artistDirs before artistDir after,
       readdir fs root = Fulfilled artistDirs
       /\ dirsToProcess artistDirs limit = before ++ artistDir :: after
       /\ isDirectory artistDir = true
       /\ readdir fs (join root (name artistDir)) = Rejected msg
       /\ allListed root before
       /\ console w'
          = console w
            ++ (Stdout, ("Scanning directory: " ++ root)%string)
               :: processingLines (before ++ [artistDir]).
Proof.
  unfold scanDirectory. unfold bind at 1, console_log at 1.
  unfold bind at 1, await at 1.
  destruct (readdir fs root) as [artistDirs|m] eqn:Hr.
  - intros H. right. apply artistLoop_first_failure in H.
    destruct H as (before & artistDir & after & Hd & Ha & Hf & Hall & Hc).
    exists artistDirs, before, artistDir, after. repeat split; auto.
    rewrite Hc. simpl. now rewrite <- app_assoc.
  - intros [= <- <-]. left. split; reflexivity.
Qed.

(** A limit that is not below the number of root entries changes nothing:
    the scan is the unlimited scan. *)
Theorem scanDirectory_limit_beyond_listing
        (root : string) (limit : Z) (artistDirs : list Dirent) (w : World) :
  readdir fs root = Fulfilled artistDirs ->
  (Z.of_nat (length artistDirs) <= limit)%Z ->
  scanDirectory root limit w = scanDirectory root 0 w.
Proof.
  intros Hls Hlim.
  assert (E : dirsToProcess artistDirs limit = dirsToProcess artistDirs 0).
  { unfold dirsToProcess, slice. simpl skipn.
    destruct (Z.ltb_spec 0 limit); [|reflexivity].
    rewrite Nat.sub_0_r. simpl. apply firstn_all2. lia. }
  unfold scanDirectory, bind, console_log, await. rewrite Hls, E. reflexivity.
Qed.

Lemma artistsOf_app (directory : string) (l1 l2 : list Dirent) :
  artistsOf directory (l1 ++ l2) = artistsOf directory l1 ++ artistsOf directory l2.
Proof. unfold artistsOf. now rewrite filter_app, flat_map_app. Qed.

Lemma scanErrorsOf_app (directory : string) (l1 l2 : list Dirent) :
  scanErrorsOf directory (l1 ++ l2)
  = scanErrorsOf directory l1 ++ scanErrorsOf directory l2.
Proof. unfold scanErrorsOf. now rewrite filter_app, flat_map_app. Qed.

(** A limited scan is the beginning of the unlimited one: when the
    unlimited scan returns, so does the scan under any limit, and its
    artists and its errors are initial segments of those of the unlimited
    scan. *)
Theorem scanDirectory_limit_is_prefix
        (root : string) (limit : Z) (w w0 : World)
        (allArtists : list Artist) (allErrors : list ProcessingError) :
  scanDirectory root 0 w = (w0, Returns (allArtists, allErrors)) ->
  exists w1 artists errors moreArtists moreErrors,
    scanDirectory root limit w = (w1, Returns (artists, errors))
    /\ allArtists = artists ++ moreArtists
    /\ allErrors = errors ++ moreErrors.
Proof.
  intros Hall.
  destruct (scanDirectory_listings join extname toLowerCase fs parseFile latency
              root 0 w w0 _ Hall) as (artistDirs & Hls & Hlisted).
  apply (scanDirectory_result root 0 artistDirs w w0 _ Hls) in Hall.
  injection Hall as -> ->.
  change (dirsToProcess artistDirs 0) with artistDirs in *.
  assert (Hsplit : exists rest, artistDirs = dirsToProcess artistDirs limit ++ rest).
  { unfold dirsToProcess, slice. destruct (0 <? limit)%Z.
    - exists (skipn (Z.to_nat limit - 0) artistDirs). simpl skipn.
      now rewrite firstn_skipn.
    - exists []. now rewrite app_nil_r. }
  destruct Hsplit as [rest Hsplit].
  destruct (scanDirectory_total join extname toLowerCase fs parseFile latency
              root limit artistDirs w Hls) as (w1 & [artists errors] & Hrun).
  { rewrite Hsplit, filter_app in Hlisted. now apply Forall_app in Hlisted. }
  pose proof (scanDirectory_result root limit artistDirs w w1 _ Hls Hrun) as Hr.
  injection Hr as -> ->.
  exists w1. eexists _, _, (artistsOf root rest), (scanErrorsOf root rest).
  split; [exact Hrun|].
  rewrite <- artistsOf_app, <- scanErrorsOf_app, <- Hsplit. split; reflexivity.
Qed.

End ScanOrder.

(** ** main: what is saved, what is logged and how it ends *)

Lemma forEach_console_log {A} (f : A -> string) (l : list A) (w : World) :
  forEach l (fun e => console_log (f e)) w
  = ({| console := console w ++ map (fun e => (Stdout, f e)) l; files := files w |},
     Returns tt).
Proof.
  revert w. induction l as [|a l IH]; intros w; simpl.
  - unfold ret. rewrite app_nil_r. now destruct w.
  - unfold bind at 1, console_log at 1. rewrite IH. simpl.
    now rewrite <- app_assoc.
Qed.

Lemma forEach_log_lines {A} (f : A -> string) (l : list A) (w : World) :
  forEach l (fun e w0 =>
               ({| console := console w0 ++ [(Stdout, f e)]; files := files w0 |},
                Returns tt)) w
  = ({| console := console w ++ map (fun e => (Stdout, f e)) l; files := files w |},
     Returns tt).
Proof. exact (forEach_console_log f l w). Qed.

(** The steps of [main] up to the call of the scan, when nothing fails
    before it. *)
Ltac main_up_to_scan Hmd Hne Hacc Hres Hmk :=
  unfold main, mainWith; rewrite Hmd;
  destruct (string_dec _ "") as [|_]; [contradiction|];
  unfold try_catch at 1; unfold bind at 1; unfold try_catch at 1, await at 1;
  rewrite Hacc; unfold bind at 1; rewrite Hres;
  unfold bind at 1, console_log at 1; unfold bind at 1, console_log at 1;
  unfold bind at 1, await at 1; rewrite Hmk; unfold bind at 1.

Section MainRuns.

Variable join : string -> string -> string.
Variable extname : string -> string.
Variable dirname : string -> string.
Variable toLowerCase : string -> string.
Variable fs : FsPromises.
Variable parseFile : string -> Settled Common.
Variable latency : string -> nat.

Abbreviation scanDirectory := (scanDirectory join extname toLowerCase fs parseFile latency).
Abbreviation resolveOutputFile := (resolveOutputFile join extname fs).
Abbreviation main := (main join extname dirname toLowerCase fs parseFile latency).

(** Whatever the arguments, the file system and the probes do, [main]
    ends by [process.exit] with code 0 or 1: no exception leaves it. *)
Theorem main_always_exits (argv : Argv) (w : World) :
  exists w' exitCode,
    main argv w = (w', Exits exitCode) /\ (exitCode = 0 \/ exitCode = 1)%Z.
Proof.
  destruct (resolveOutputFile_run join extname fs (output argv)) as (outputFile & Hres).
  unfold main, mainWith.
  destruct (music_dir argv) as [musicDirectory|].
  2:{ unfold bind, console_error, process_exit. eexists _, _. split; [reflexivity|auto]. }
  destruct (string_dec musicDirectory "") as [|_].
  { unfold bind, console_error, process_exit. eexists _, _. split; [reflexivity|auto]. }
  destruct (scanDirectory_effects join extname toLowerCase fs parseFile latency
              musicDirectory (limit_ argv)) as (lines & o & Hne & Hscan).
  unfold try_catch at 1. unfold bind at 1. unfold try_catch at 1, await at 1.
  destruct (access fs musicDirectory) as [[]|m0].
  2:{ unfold bind, console_error, process_exit. eexists _, _. split; [reflexivity|auto]. }
  unfold bind at 1. rewrite Hres.
  unfold bind at 1, console_log at 1. unfold bind at 1, console_log at 1.
  unfold bind at 1, await at 1.
  destruct (mkdir fs (dirname outputFile)) as [[]|m1].
  2:{ unfold bind, console_error, process_exit. eexists _, _. split; [reflexivity|auto]. }
  unfold bind at 1. rewrite Hscan.
  destruct o as [[artists errors]|m2|c].
  3:{ now destruct (Hne c). }
  2:{ unfold bind, console_error, process_exit. eexists _, _. split; [reflexivity|auto]. }
  cbv beta iota zeta. simpl fst. simpl snd.
  unfold when, bind, console_log, console_error, fs_writeFile, process_exit, ret.
  destruct (0 <? length artists)%nat;
    [destruct (writeFile fs outputFile (ArtistsJson artists))|];
    (destruct (0 <? length errors)%nat;
     [destruct (writeFile fs (join (dirname outputFile) "music_metadata_errors.json")
                          (ErrorsJson errors))|]);
    cbv beta iota; rewrite ?forEach_log_lines;
    try destruct (5 <? length errors)%nat;
    eexists _, _; (split; [reflexivity|auto]).
Qed.

(** The scan at the world in which [main] calls it. *)
Lemma scanDirectory_anywhere (directory : string) (limit : Z) (w0 w1 : World)
      (r : list Artist * list ProcessingError) :
  scanDirectory directory limit w0 = (w1, Returns r) ->
  exists lines,
    forall w, scanDirectory directory limit w
              = ({| console := console w ++ lines; files := files w |}, Returns r).
Proof.
  intros H.
  destruct (scanDirectory_frame join extname toLowerCase fs parseFile latency
              directory limit) as (lines & o & Hf).
  rewrite Hf in H. injection H as _ ->. now exists lines.
Qed.

(** A run of [main] in which nothing fails. *)
Lemma main_success_run
      (argv : Argv) (musicDirectory outputFile : string)
      (artists : list Artist) (errors : list ProcessingError) (w w0 w1 : World) :
  music_dir argv = Some musicDirectory ->
  musicDirectory <> "" ->
  access fs musicDirectory = Fulfilled tt ->
  resolveOutputFile (output argv) w = (w, Returns outputFile) ->
  mkdir fs (dirname outputFile) = Fulfilled tt ->
  scanDirectory musicDirectory (limit_ argv) w0 = (w1, Returns (artists, errors)) ->
  (forall path content, writeFile fs path content = Fulfilled tt) ->
  let errorFile := join (dirname outputFile) "music_metadata_errors.json" in
  exists before,
    main argv w
    = ({| console :=
            before
            ++ (if (0 <? length artists)%nat
                then [(Stdout, String "010" ("Writing " ++ showNat (length artists)
                                               ++ " artists to file..."));
                      (Stdout, "Music library JSON saved to " ++ outputFile)]%string
                else [])
            ++ (if (0 <? length errors)%nat
                then [(Stdout, String "010" ("Encountered " ++ showNat (length errors)
                                               ++ " errors during processing:"));
                      (Stdout, "Processing errors saved to " ++ errorFile);
                      (Stdout, String "010" "Sample of errors encountered:")]%string
                     ++ map (fun e => (Stdout, ("  - " ++ file e ++ ": " ++ error e)%string))
                            (firstn 5 errors)
                     ++ (if (5 <? length errors)%nat
                         then [(Stdout, ("  ... and " ++ showNat (length errors - 5)
                                           ++ " more errors (see " ++ errorFile
                                           ++ " for full list)")%string)]
                         else [])
                else []);
          files :=
            files w
            ++ (if (0 <? length artists)%nat
                then [(outputFile, ArtistsJson artists)] else [])
            ++ (if (0 <? length errors)%nat
                then [(errorFile, ErrorsJson errors)] else []) |},
       Exits 0).
Proof.
  intros Hmd Hne Hacc Hres Hmk Hscan Hwrite errorFile.
  apply scanDirectory_anywhere in Hscan. destruct Hscan as (lines & Hscan).
  main_up_to_scan Hmd Hne Hacc Hres Hmk.
  rewrite Hscan. cbv beta iota zeta. simpl fst. simpl snd. fold errorFile.
  unfold when, bind, console_log, console_error, fs_writeFile, process_exit, ret.
  rewrite !Hwrite.
  eexists ((console w ++ [_; _]) ++ lines).
  destruct (0 <? length artists)%nat; destruct (0 <? length errors)%nat;
    cbv beta iota; rewrite ?forEach_log_lines;
    try destruct (5 <? length errors)%nat;
    unfold slice; simpl; rewrite ?app_nil_r, <- ?app_assoc; simpl;
    reflexivity.
Qed.

End MainRuns.

Section MainSaves.

Variable join : string -> string -> string.
Variable extname : string -> string.
Variable dirname : string -> string.
Variable toLowerCase : string -> string.
Variable fs : FsPromises.
Variable parseFile : string -> Settled Common.
Variable latency : string -> nat.

Abbreviation scanDirectory := (scanDirectory join extname toLowerCase fs parseFile latency).
Abbreviation resolveOutputFile := (resolveOutputFile join extname fs).
Abbreviation main := (main join extname dirname toLowerCase fs parseFile latency).

(** When nothing fails, [main] exits with code 0 and the files it has
    written are exactly these, in this order: the output file if there is
    at least one artist, then [music_metadata_errors.json] beside the
    output file if there is at least one error.  With neither artists nor
    errors no file is written.  (Which files, not what they hold.) *)
Theorem main_saves_result
        (argv : Argv) (musicDirectory outputFile : string)
        (artists : list Artist) (errors : list ProcessingError) (w w0 w1 : World) :
  music_dir argv = Some musicDirectory ->
  musicDirectory <> "" ->
  access fs musicDirectory = Fulfilled tt ->
  resolveOutputFile (output argv) w = (w, Returns outputFile) ->
  mkdir fs (dirname outputFile) = Fulfilled tt ->
  scanDirectory musicDirectory (limit_ argv) w0 = (w1, Returns (artists, errors)) ->
  (forall path content, writeFile fs path content = Fulfilled tt) ->
  exists w',
    main argv w = (w', Exits 0)
    /\ map fst (files w')
       = map fst (files w)
         ++ match artists with
            | [] => []
            | _ => [outputFile]
            end
         ++ match errors with
            | [] => []
            | _ => [join (dirname outputFile) "music_metadata_errors.json"]
            end.
Proof.
  intros Hmd Hne Hacc Hres Hmk Hscan Hwrite.
  destruct (main_success_run join extname dirname toLowerCase fs parseFile latency
              argv musicDirectory outputFile artists errors w w0 w1
              Hmd Hne Hacc Hres Hmk Hscan Hwrite) as (before & E).
  cbv zeta in E. rewrite E. eexists. split; [reflexivity|].
  simpl. rewrite !map_app. now destruct artists, errors.
Qed.

(** When nothing fails and there are errors, the console ends with the
    sample of the errors: the header, one line for each of the first five
    errors and, only when there are more than five, a line with the number
    of the others. *)
Theorem main_logs_error_sample
        (argv : Argv) (musicDirectory outputFile : string)
        (artists : list Artist) (errors : list ProcessingError) (w w0 w1 : World) :
  music_dir argv = Some musicDirectory ->
  musicDirectory <> "" ->
  access fs musicDirectory = Fulfilled tt ->
  resolveOutputFile (output argv) w = (w, Returns outputFile) ->
  mkdir fs (dirname outputFile) = Fulfilled tt ->
  scanDirectory musicDirectory (limit_ argv) w0 = (w1, Returns (artists, errors)) ->
  (forall path content, writeFile fs path content = Fulfilled tt) ->
  errors <> [] ->
  exists w' before,
    main argv w = (w', Exits 0)
    /\ console w'
       = before
         ++ (Stdout, String "010" "Sample of errors encountered:")
            :: map (fun e => (Stdout, ("  - " ++ file e ++ ": " ++ error e)%string))
                   (firstn 5 errors)
         ++ if (5 <? length errors)%nat
            then [(Stdout,
                   ("  ... and " ++ showNat (length errors - 5)
                      ++ " more errors (see "
                      ++ join (dirname outputFile) "music_metadata_errors.json"
                      ++ " for full list)")%string)]
            else [].
Proof.
  intros Hmd Hne Hacc Hres Hmk Hscan Hwrite Herr.
  destruct (main_success_run join extname dirname toLowerCase fs parseFile latency
              argv musicDirectory outputFile artists errors w w0 w1
              Hmd Hne Hacc Hres Hmk Hscan Hwrite) as (before & E).
  cbv zeta in E. rewrite E.
  destruct errors as [|e errors]; [contradiction|].
  change (0 <? length (e :: errors))%nat with true. cbv iota.
  eexists _, (before ++ _ ++ [_; _]). split; [reflexivity|].
  cbn [console]. do 2 rewrite <- app_assoc. reflexivity.
Qed.

(** When the write of the output file fails, [main] logs the failure as a
    fatal error and exits with code 1: nothing is written, not even the
    errors of the scan. *)
Theorem main_output_write_failure
        (argv : Argv) (musicDirectory outputFile msg : string)
        (artists : list Artist) (errors : list ProcessingError) (w w0 w1 : World) :
  music_dir argv = Some musicDirectory ->
  musicDirectory <> "" ->
  access fs musicDirectory = Fulfilled tt ->
  resolveOutputFile (output argv) w = (w, Returns outputFile) ->
  mkdir fs (dirname outputFile) = Fulfilled tt ->
  scanDirectory musicDirectory (limit_ argv) w0 = (w1, Returns (artists, errors)) ->
  artists <> [] ->
  writeFile fs outputFile (ArtistsJson artists) = Rejected msg ->
  exists w' before,
    main argv w = (w', Exits 1)
    /\ files w' = files w
    /\ console w' = before ++ [(Stderr, ("Fatal error: " ++ msg)%string)].
Proof.
  intros Hmd Hne Hacc Hres Hmk Hscan Hart Hwrite.
  apply (scanDirectory_anywhere join extname toLowerCase fs parseFile latency)
    in Hscan.
  destruct Hscan as (lines & Hscan).
  main_up_to_scan Hmd Hne Hacc Hres Hmk.
  rewrite Hscan. cbv beta iota zeta. simpl fst. simpl snd.
  destruct artists as [|a artists]; [contradiction|].
  change (0 <? length (a :: artists))%nat with true.
  unfold when at 1. unfold bind at 1. unfold bind at 1, console_log at 1.
  unfold bind at 1, fs_writeFile at 1. rewrite Hwrite.
  unfold bind, console_error, process_exit. cbv beta iota.
  eexists _, _. split; [reflexivity|]. split; reflexivity.
Qed.

(** Without a usable music directory [main] does nothing but report it:
    when the directory is not given, or given as the empty string, or
    cannot be accessed, one line goes to stderr, nothing is written, no
    scan starts and the exit code is 1. *)
Theorem main_configuration_errors (argv : Argv) (w : World) :
  (music_dir argv = None \/ music_dir argv = Some "" ->
   main argv w
   = ({| console :=
           console w
           ++ [(Stderr, "Error: Music directory not specified. Please provide it via .env file or --music-dir argument")];
         files := files w |}, Exits 1))
  /\ (forall musicDirectory msg,
         music_dir argv = Some musicDirectory ->
         musicDirectory <> "" ->
         access fs musicDirectory = Rejected msg ->
         main argv w
         = ({| console :=
                 console w
                 ++ [(Stderr, ("Error: Music directory "
                                 ++ String "034" (musicDirectory
                                 ++ String "034" " does not exist or is not accessible"))%string)];
               files := files w |}, Exits 1)).
Proof.
  split.
  - intros [H|H]; unfold main, mainWith; rewrite H; reflexivity.
  - intros musicDirectory msg Hmd Hne Hacc. unfold main, mainWith. rewrite Hmd.
    destruct (string_dec musicDirectory "") as [|_]; [contradiction|].
    unfold try_catch, bind, await. rewrite Hacc. reflexivity.
Qed.

(** When the directory of the output file cannot be created, [main] stops
    before the scan: it logs the failure as a fatal error and exits with
    code 1 without having listed or written anything. *)
Theorem main_mkdir_failure
        (argv : Argv) (musicDirectory outputFile msg : string) (w : World) :
  music_dir argv = Some musicDirectory ->
  musicDirectory <> "" ->
  access fs musicDirectory = Fulfilled tt ->
  resolveOutputFile (output argv) w = (w, Returns outputFile) ->
  mkdir fs (dirname outputFile) = Rejected msg ->
  main argv w
  = ({| console :=
          console w
          ++ [(Stdout, ("Starting scan of music directory: " ++ musicDirectory)%string);
              (Stdout, ("Will save results to: " ++ outputFile)%string);
              (Stderr, ("Fatal error: " ++ msg)%string)];
        files := files w |}, Exits 1).
Proof.
  intros Hmd Hne Hacc Hres Hmk.
  main_up_to_scan Hmd Hne Hacc Hres Hmk.
  unfold bind, console_error, process_exit. simpl.
  now rewrite <- !app_assoc.
Qed.

End MainSaves.

(** ** The handler of uncaught exceptions and getVersion *)

(** An uncaught exception lets the process go on exactly when it is an
    object whose [code] is 'EBADF' and whose [syscall] is 'close': the
    handler then writes one warning to stderr and returns.  For every
    other value it writes "Fatal error:" with the message of the value and
    exits with code 1.  It never writes a file. *)
Theorem uncaughtException_survivable
        (matchProcessingTrack : string -> option string) (err : Thrown) (w : World) :
  let survivable :=
    isObject err = true
    /\ code err = Some (JsString "EBADF")
    /\ syscall err = Some (JsString "close") in
  (survivable ->
   exists filePath,
     uncaughtException matchProcessingTrack err w
     = ({| console :=
             console w
             ++ [(Stderr, ("Warning: File descriptor error occurred but processing will continue: "
                             ++ filePath)%string)];
           files := files w |}, Returns tt))
  /\ (~ survivable ->
      uncaughtException matchProcessingTrack err w
      = ({| console := console w ++ [(Stderr, ("Fatal error: " ++ text err)%string)];
            files := files w |}, Exits 1)).
Proof.
  intros survivable. subst survivable. unfold uncaughtException. split.
  - intros (Ho & Hc & Hs). rewrite Ho, Hc, Hs. simpl. eexists. reflexivity.
  - intros Hn.
    destruct (isObject err); [|reflexivity].
    destruct (code err) as [[c|]|]; try reflexivity;
      destruct (syscall err) as [[s|]|]; simpl; try reflexivity;
      destruct (string_dec c "EBADF") as [->|]; simpl; try reflexivity.
    destruct (string_dec s "close") as [->|]; [|reflexivity].
    exfalso. apply Hn. repeat split.
Qed.

(** [getVersion] never throws.  It falls back to '1.0.0' when the package
    file cannot be read, when its text does not parse, and when it parses
    to [null]; when it parses to an object the result is the [version]
    property of that object, which is [undefined], not the fall-back,
    when the object has no such property. *)
Theorem getVersion_fallback
        (join : string -> string -> string) (readFile : string -> Settled string)
        (JSON_parse : string -> Settled Json) (__dirname : string) (w : World) :
  exists version,
    getVersion join readFile JSON_parse __dirname w = (w, Returns version)
    /\ (forall msg, readFile (join __dirname "package.json") = Rejected msg ->
        version = Some (JText "1.0.0"))
    /\ (forall contents msg,
           readFile (join __dirname "package.json") = Fulfilled contents ->
           JSON_parse contents = Rejected msg ->
           version = Some (JText "1.0.0"))
    /\ (forall contents,
           readFile (join __dirname "package.json") = Fulfilled contents ->
           JSON_parse contents = Fulfilled JNull ->
           version = Some (JText "1.0.0"))
    /\ (forall contents fields,
           readFile (join __dirname "package.json") = Fulfilled contents ->
           JSON_parse contents = Fulfilled (JObject fields) ->
           version = getField fields "version").
Proof.
  unfold getVersion, try_catch, bind, await, throw, ret.
  destruct (readFile (join __dirname "package.json")) as [contents|m].
  - destruct (JSON_parse contents) as [[|s|fields|]|m'] eqn:Ep;
      eexists; (split; [reflexivity|]);
      repeat split; intros; congruence.
  - eexists. split; [reflexivity|]. repeat split; intros; congruence.
Qed.

(** Resolving the output path never fails and logs nothing, whatever
    [stat] does: every failure of [stat] is taken as a missing path.  The
    result is the path itself or the default file name inside it. *)
Theorem resolveOutputFile_never_fails
        (join : string -> string -> string) (extname : string -> string)
        (fs : FsPromises) (outputPath : string) :
  exists outputFile,
    (forall w, resolveOutputFile join extname fs outputPath w = (w, Returns outputFile))
    /\ (outputFile = outputPath
        \/ outputFile = join outputPath "music_metadata.json").
Proof.
  unfold resolveOutputFile, try_catch, bind, await, ret.
  destruct (stat fs outputPath) as [[| |]|msg]; eauto.
  destruct (string_dec (extname outputPath) ""); eauto.
Qed.

(** ** Runs on the example libraries *)

Lemma processAlbum_errors_by_batch_witness :
  exists album errors groups,
    Library.album3 "/lib/X/Big" "Big" emptyWorld = (emptyWorld, Returns (album, errors))
    /\ errors = concat groups
    /\ length groups = 3.
Proof.
  destruct (processAlbum_errors_by_batch
              Posix.join Posix.extname Posix.toLowerCase
              (Library.fsOf Library.listings3) (Library.probeOf Library.probes3)
              Library.latency3 "/lib/X/Big" "Big" _ emptyWorld eq_refl)
    as (album & errors & groups & Hrun & Hc & Hg).
  exists album, errors, groups. split; [exact Hrun|]. split; [exact Hc|].
  apply Forall2_length in Hg. rewrite <- Hg. vm_compute. reflexivity.
Defined.

Lemma processAlbum_in_order_completion_witness :
  exists album errors,
    Library.album3inOrder "/lib/X/Big" "Big" emptyWorld
    = (emptyWorld, Returns (album, errors))
    /\ map file errors = ["/lib/X/Big/t3.mp3"; "/lib/X/Big/t10.mp3";
                          "/lib/X/Big/t17.mp3"; "/lib/X/Big/t24.mp3"].
Proof.
  assert (Hs : StronglySorted
                 (fun f g => Library.noLatency (Posix.join "/lib/X/Big" (name f))
                             <= Library.noLatency (Posix.join "/lib/X/Big" (name g)))
                 (filter (isMusicFile Posix.extname Posix.toLowerCase)
                         (map (fun n => Library.reg ("t" ++ showNat n ++ ".mp3"))
                              (seq 1 25)))).
  { vm_compute. repeat constructor. }
  destruct (processAlbum_in_order_completion
              Posix.join Posix.extname Posix.toLowerCase
              (Library.fsOf Library.listings3) (Library.probeOf Library.probes3)
              Library.noLatency "/lib/X/Big" "Big" _ emptyWorld eq_refl Hs)
    as (album & errors & Hrun & He & _).
  exists album, errors. split; [exact Hrun|].
  rewrite He. vm_compute. reflexivity.
Defined.

Lemma processAlbum_titles_not_empty_witness :
  exists a errors,
    Library.album1 "/music/ArtistC/Album2" "Album2" emptyWorld
    = (emptyWorld, Returns (Some a, errors))
    /\ map title (tracks a) = ["Song2"; "d.m4a"]
    /\ Forall (fun track => title track <> "") (tracks a).
Proof.
  assert (E : Library.album1 "/music/ArtistC/Album2" "Album2" emptyWorld
              = Library.album1_result) by (vm_compute; reflexivity).
  unfold Library.album1_result in E.
  eexists _, _. split; [exact E|]. split; [reflexivity|].
  refine (processAlbum_titles_not_empty
            Posix.join Posix.extname Posix.toLowerCase
            (Library.fsOf Library.listings1) (Library.probeOf Library.probes1)
            Library.noLatency "/music/ArtistC/Album2" "Album2"
            [Library.reg "c.OGG"; Library.reg "d.m4a"] emptyWorld emptyWorld _ _
            eq_refl _ E).
  repeat constructor; discriminate.
Defined.

Lemma scanDirectory_errors_are_the_failures_witness :
  exists w' artists errors,
    Library.scan3 "/lib" 0%Z emptyWorld = (w', Returns (artists, errors))
    /\ Permutation (map file errors)
                   ["/lib/X/Big/t3.mp3"; "/lib/X/Big/t10.mp3";
                    "/lib/X/Big/t17.mp3"; "/lib/X/Big/t24.mp3"].
Proof.
  assert (E : Library.scan3 "/lib" 0%Z emptyWorld = Library.scan3_result)
    by (vm_compute; reflexivity).
  unfold Library.scan3_result in E.
  eexists _, _, _. split; [exact E|].
  pose proof (scanDirectory_errors_are_the_failures
                Posix.join Posix.extname Posix.toLowerCase
                (Library.fsOf Library.listings3) (Library.probeOf Library.probes3)
                Library.latency3 "/lib" 0%Z _ emptyWorld _ _ _ eq_refl E) as Hp.
  apply (Permutation_map file) in Hp.
  etransitivity; [exact Hp|]. vm_compute. reflexivity.
Defined.

Lemma scanDirectory_throws_first_failure_witness :
  exists w' before artistDir after,
    Library.scan2 "/music" 0%Z emptyWorld
    = (w', Throws "EACCES: permission denied, scandir '/music/ArtistB'")
    /\ [Library.dir "ArtistA"; Library.dir "ArtistB"; Library.dir "ArtistC"]
       = before ++ artistDir :: after
    /\ readdir (Library.fsOf Library.listings2) (Posix.join "/music" (name artistDir))
       = Rejected "EACCES: permission denied, scandir '/music/ArtistB'".
Proof.
  assert (E : Library.scan2 "/music" 0%Z emptyWorld = Library.scan2_result)
    by (vm_compute; reflexivity).
  unfold Library.scan2_result in E.
  destruct (scanDirectory_throws_first_failure
              Posix.join Posix.extname Posix.toLowerCase
              (Library.fsOf Library.listings2) (Library.probeOf Library.probes1)
              Library.noLatency "/music" 0%Z emptyWorld _ _ E)
    as [[Hroot _] | (artistDirs & before & artistDir & after & Hls & Hd & _ & Hf & _)].
  - discriminate Hroot.
  - injection Hls as <-.
    eexists _, before, artistDir, after. split; [exact E|].
    split; [exact Hd | exact Hf].
Defined.

Lemma scanDirectory_limit_beyond_listing_witness :
  Library.scan1 "/music" 10%Z emptyWorld = Library.scan1 "/music" 0%Z emptyWorld.
Proof.
  apply (scanDirectory_limit_beyond_listing
           Posix.join Posix.extname Posix.toLowerCase
           (Library.fsOf Library.listings1) (Library.probeOf Library.probes1)
           Library.noLatency "/music" 10%Z
           [Library.reg ".DS_Store"; Library.dir "ArtistA"; Library.dir "ArtistB";
            Library.dir "ArtistC"]).
  - reflexivity.
  - vm_compute. discriminate.
Defined.

Lemma scanDirectory_limit_is_prefix_witness :
  exists w0 allArtists allErrors w1 artists errors moreArtists moreErrors,
    Library.scan1 "/music" 0%Z emptyWorld = (w0, Returns (allArtists, allErrors))
    /\ Library.scan1 "/music" 2%Z emptyWorld = (w1, Returns (artists, errors))
    /\ allArtists = artists ++ moreArtists
    /\ allErrors = errors ++ moreErrors
    /\ length allArtists = 2.
Proof.
  assert (E : Library.scan1 "/music" 0%Z emptyWorld = Library.scan1_result)
    by (vm_compute; reflexivity).
  unfold Library.scan1_result in E.
  destruct (scanDirectory_limit_is_prefix
              Posix.join Posix.extname Posix.toLowerCase
              (Library.fsOf Library.listings1) (Library.probeOf Library.probes1)
              Library.noLatency "/music" 2%Z emptyWorld _ _ _ E)
    as (w1 & artists & errors & moreArtists & moreErrors & Hrun & Ha & He).
  eexists _, _, _, w1, artists, errors, moreArtists, moreErrors.
  split; [exact E|]. split; [exact Hrun|]. split; [exact Ha|]. split; [exact He|].
  reflexivity.
Defined.

Lemma main_saves_result_witness :
  exists w',
    Library.main1 Library.argv1 emptyWorld = (w', Exits 0)
    /\ map fst (files w')
       = ["/out/music_metadata.json"; "/out/music_metadata_errors.json"].
Proof.
  assert (E : Library.scan1 "/music" 0%Z emptyWorld = Library.scan1_result)
    by (vm_compute; reflexivity).
  unfold Library.scan1_result in E.
  destruct (main_saves_result
              Posix.join Posix.extname Posix.dirname Posix.toLowerCase
              (Library.fsOf Library.listings1) (Library.probeOf Library.probes1)
              Library.noLatency Library.argv1 "/music" "/out/music_metadata.json"
              _ _ emptyWorld emptyWorld _
              eq_refl ltac:(discriminate) eq_refl eq_refl eq_refl E
              (fun _ _ => eq_refl))
    as (w' & Hm & Hf).
  exists w'. split; [exact Hm|]. rewrite Hf. reflexivity.
Defined.

Lemma main_logs_error_sample_witness :
  exists w' before,
    Library.main4 Library.argv3 emptyWorld = (w', Exits 0)
    /\ console w'
       = before
         ++ [(Stdout, String "010" "Sample of errors encountered:");
             (Stdout, "  - /lib/X/Big/t3.mp3: Invalid FLAC preamble");
             (Stdout, "  - /lib/X/Big/t6.mp3: Invalid FLAC preamble");
             (Stdout, "  - /lib/X/Big/t9.mp3: Invalid FLAC preamble");
             (Stdout, "  - /lib/X/Big/t15.mp3: Invalid FLAC preamble");
             (Stdout, "  - /lib/X/Big/t18.mp3: Invalid FLAC preamble");
             (Stdout, "  ... and 3 more errors (see /out/music_metadata_errors.json for full list)")].
Proof.
  assert (E : Library.scan4 "/lib" 0%Z emptyWorld = Library.scan4_result)
    by (vm_compute; reflexivity).
  unfold Library.scan4_result in E.
  destruct (main_logs_error_sample
              Posix.join Posix.extname Posix.dirname Posix.toLowerCase
              (Library.fsOf Library.listings3) (Library.probeOf Library.probes4)
              Library.latency3 Library.argv3 "/lib" "/out/lib.json"
              _ _ emptyWorld emptyWorld _
              eq_refl ltac:(discriminate) eq_refl eq_refl eq_refl E
              (fun _ _ => eq_refl) ltac:(discriminate))
    as (w' & before & Hm & Hc).
  exists w', before. split; [exact Hm|]. rewrite Hc. reflexivity.
Defined.

Lemma main_output_write_failure_witness :
  exists w' before,
    Library.main1ro Library.argv1 emptyWorld = (w', Exits 1)
    /\ files w' = []
    /\ console w'
       = before
         ++ [(Stderr, "Fatal error: EROFS: read-only file system, open '/out/music_metadata.json'")].
Proof.
  assert (E : scanDirectory Posix.join Posix.extname Posix.toLowerCase
                (Library.readOnly (Library.fsOf Library.listings1))
                (Library.probeOf Library.probes1) Library.noLatency
                "/music" 0%Z emptyWorld = Library.scan1_result)
    by (vm_compute; reflexivity).
  unfold Library.scan1_result in E.
  destruct (main_output_write_failure
              Posix.join Posix.extname Posix.dirname Posix.toLowerCase
              (Library.readOnly (Library.fsOf Library.listings1))
              (Library.probeOf Library.probes1)
              Library.noLatency Library.argv1 "/music" "/out/music_metadata.json"
              _ _ _ emptyWorld emptyWorld _
              eq_refl ltac:(discriminate) eq_refl eq_refl eq_refl E
              ltac:(discriminate) eq_refl)
    as (w' & before & Hm & Hf & Hc).
  exists w', before. split; [exact Hm|]. split; [exact Hf | exact Hc].
Defined.

Lemma main_configuration_errors_witness :
  (exists line,
      Library.main1 {| music_dir := None; output := "."; limit_ := 0 |} emptyWorld
      = ({| console := [(Stderr, line)]; files := [] |}, Exits 1))
  /\ (exists line,
         Library.main1 {| music_dir := Some "/nowhere"; output := "."; limit_ := 0 |}
                       emptyWorld
         = ({| console := [(Stderr, line)]; files := [] |}, Exits 1)).
Proof.
  split; eexists.
  - apply (proj1 (main_configuration_errors
                    Posix.join Posix.extname Posix.dirname Posix.toLowerCase
                    (Library.fsOf Library.listings1) (Library.probeOf Library.probes1)
                    Library.noLatency
                    {| music_dir := None; output := "."; limit_ := 0 |} emptyWorld)).
    left. reflexivity.
  - apply (proj2 (main_configuration_errors
                    Posix.join Posix.extname Posix.dirname Posix.toLowerCase
                    (Library.fsOf Library.listings1) (Library.probeOf Library.probes1)
                    Library.noLatency
                    {| music_dir := Some "/nowhere"; output := "."; limit_ := 0 |}
                    emptyWorld)
                 "/nowhere" "ENOENT: no such file or directory, access '/nowhere'");
      [reflexivity | discriminate | reflexivity].
Defined.

Lemma main_mkdir_failure_witness :
  Library.main1nomkdir Library.argv1 emptyWorld
  = ({| console :=
          [(Stdout, "Starting scan of music directory: /music");
           (Stdout, "Will save results to: /out/music_metadata.json");
           (Stderr, "Fatal error: EACCES: permission denied, mkdir '/out'")];
        files := [] |}, Exits 1).
Proof.
  apply (main_mkdir_failure
           Posix.join Posix.extname Posix.dirname Posix.toLowerCase
           (Library.noMkdir (Library.fsOf Library.listings1))
           (Library.probeOf Library.probes1) Library.noLatency
           Library.argv1 "/music" "/out/music_metadata.json"
           "EACCES: permission denied, mkdir '/out'" emptyWorld);
    [reflexivity | discriminate | reflexivity | reflexivity | reflexivity].
Defined.

Lemma uncaughtException_survivable_witness :
  (exists w', uncaughtException Library.noMatch Library.ebadfOnClose emptyWorld
              = (w', Returns tt))
  /\ uncaughtException Library.noMatch Library.enoentOnOpen emptyWorld
     = ({| console := [(Stderr, "Fatal error: ENOENT: no such file or directory, open 'x'")];
           files := [] |}, Exits 1).
Proof.
  split.
  - destruct (proj1 (uncaughtException_survivable
                       Library.noMatch Library.ebadfOnClose emptyWorld))
      as (filePath & H); [repeat split|].
    eexists. exact H.
  - apply (proj2 (uncaughtException_survivable
                    Library.noMatch Library.enoentOnOpen emptyWorld)).
    intros (_ & Hc & _). discriminate Hc.
Defined.

Lemma getVersion_fallback_witness :
  getVersion Posix.join Library.readPackage Library.parsePackage "/app" emptyWorld
  = (emptyWorld, Returns (Some (JText "2.3.4")))
  /\ getVersion Posix.join Library.readPackage Library.parsePackage "/elsewhere" emptyWorld
     = (emptyWorld, Returns (Some (JText "1.0.0"))).
Proof.
  split.
  - destruct (getVersion_fallback Posix.join Library.readPackage Library.parsePackage
                                  "/app" emptyWorld)
      as (version & Hrun & _ & _ & _ & Hobj).
    rewrite Hrun. f_equal. f_equal.
    exact (Hobj "package.json v2" _ eq_refl eq_refl).
  - destruct (getVersion_fallback Posix.join Library.readPackage Library.parsePackage
                                  "/elsewhere" emptyWorld)
      as (version & Hrun & Hread & _).
    rewrite Hrun. f_equal. f_equal.
    exact (Hread _ eq_refl).
Defined.
